(** * wdk-wallet-btc: a shallow embedding of the wallet engine

    The development follows the JavaScript sources:

    - wallet-account-btc.js, the full-access account: the transaction
      builder ([_getUtxos], [_getRawTransaction], [_getTransaction],
      [sendTransaction], [quoteSendTransaction]) and the account object
      (constructor, [index], [path], [keyPair], [sign], [verify],
      [dispose]);
    - wallet-account-read-only-btc.js, the read-only account:
      [_estimateFee], with the witness serialisation local to it, and
      [getTransfers], both in their two versions, with a transaction
      cache and over the scripthash interface.

    Satoshi amounts are JavaScript numbers holding integers; they are
    modelled as [Z].  The fee rate is a BigNumber (an exact decimal); it
    is modelled as [Q].  Where [_estimateFee] turns the rate into a
    JavaScript number and multiplies, the result is rounded as a double
    is ([to_double]).  Promises are modelled by the result type [res]:
    a rejected promise or a thrown exception is [Throw e].

    The libraries the code calls (bitcoinjs-lib, bip32, noble hashes,
    sodium-universal) and the Electrum client behind
    [this._electrumClient] are taken as records of functions: what a
    call returns, or the exception it raises. *)

From Stdlib Require Import ZArith QArith Qround Qminmax Lia Strings.Byte.
From stdpp Require Import gmap strings list.

Local Open Scope string_scope.
Local Open Scope list_scope.
Local Open Scope Z_scope.

(** ** Exceptions and results *)

(** The exceptions the code can raise: [new Error(message)], the
    [UnsupportedOperationError] class of wallet-account-btc.js, the
    [TypeError] JavaScript raises on a property access through [null] or
    [undefined], and a rejection coming from a library call. *)
Inductive error : Type :=
| Error (message : string)
| UnsupportedOperationError (methodName : string)
| TypeError
| LibraryError (cause : string).

Inductive res (A : Type) : Type :=
| Ok (a : A)
| Throw (e : error).

Arguments Ok {A} a.
Arguments Throw {A} e.

#[global] Instance res_ret : MRet res := fun _ a => Ok a.
#[global] Instance res_bind : MBind res := fun _ _ f m =>
  match m with
  | Ok a => f a
  | Throw e => Throw e
  end.

Definition is_ok {A} (r : res A) : bool :=
  match r with Ok _ => true | Throw _ => false end.

Definition NO_UNSPENT : string := "No unspent outputs available.".
Definition INSUFFICIENT : string := "Insufficient balance to send the transaction.".
Definition BELOW_DUST : string := "The amount must be bigger than the dust limit (= 546).".

Definition DUST_LIMIT : Z := 546.

(** ** Data *)

(** An Electrum [listunspent] entry. *)
Record Unspent : Type := mkUnspent {
  tx_hash : string;
  tx_pos : nat;
  value : Z
}.

(** An output of a decoded transaction ([tx.outs[i]]). *)
Record TxOut : Type := mkTxOut {
  script : string;
  out_value : Z
}.

(** An input of a decoded transaction ([tx.ins[i]]): the previous
    transaction id (already byte-reversed and hex-encoded) and the
    index of the output it spends. *)
Record TxIn : Type := mkTxIn {
  hash : string;
  index : nat
}.

Record Transaction : Type := mkTransaction {
  ins : list TxIn;
  outs : list TxOut
}.

(** [{ ...utxo, vout: { value, scriptPubKey: { hex } } }] as built by
    [_getUtxos]. *)
Record Collected : Type := mkCollected {
  utxo : Unspent;
  vout : TxOut
}.

(** An output added to a PSBT with [psbt.addOutput({ address, value })]. *)
Record Output : Type := mkOutput {
  address : string;
  amount_sats : Z
}.

(** A PSBT after [createPsbt]: inputs in insertion order, outputs in
    insertion order, one witness per signed input. *)
Record Psbt : Type := mkPsbt {
  inputs : list Collected;
  outputs : list Output;
  witnesses : list string
}.

(** [{ txid, hex, fee }] as returned by [_getRawTransaction]. *)
Record RawTransaction : Type := mkRawTransaction {
  txid : string;
  hex : string;
  fee : Z
}.

(** [{ hash, fee }] as returned by [sendTransaction]. *)
Record TransactionResult : Type := mkTransactionResult {
  result_hash : string;
  result_fee : Z
}.

(** An Electrum history entry; [height] is 0 for the mempool. *)
Record HistoryItem : Type := mkHistoryItem {
  item_tx_hash : string;
  height : Z
}.

(** The Electrum client, as the account uses it.  Each call either
    resolves or rejects; [getUnspent] may resolve to [null] ([None]). *)
Record ElectrumClient : Type := mkElectrumClient {
  getUnspent : string -> res (option (list Unspent));
  getTransaction : string -> res Transaction;
  getFeeEstimateInSatsPerVb : res Q;
  broadcastTransaction : string -> res string;
  getHistory : string -> res (list HistoryItem)
}.

(** What the builder needs from bitcoinjs-lib. *)
Record BitcoinJs : Type := mkBitcoinJs {
  (* psbt.addOutput({ address }) accepts the address for the network *)
  validAddress : string -> bool;
  (* psbt.signInputHD(index, root) followed by finalization *)
  signInputHD : list Collected -> list Output -> nat -> res string;
  (* the checks psbt.extractTransaction() runs before it returns *)
  checkFees : Psbt -> res unit;
  virtualSize : Psbt -> Z;
  getId : Psbt -> string;
  toHex : Psbt -> string;
  (* address.toOutputScript(addr, network); throws on a bad address *)
  toOutputScript : string -> res string;
  (* psbt.extractTransaction().virtualSize() of a PSBT whose inputs carry
     the dummy 71+33 byte witness of _estimateFee *)
  dummyVirtualSize : list Unspent -> list TxOut -> res Z;
  (* address.fromOutputScript(script, network); throws on an unknown script *)
  fromOutputScript : string -> res string;
  (* payments.p2wpkh({ output: script, network }).address; throws when
     the script is not a P2WPKH output *)
  p2wpkh_output_address : string -> res string
}.

Definition sum_values (us : list Collected) : Z :=
  foldl (fun sum u => sum + value (utxo u)) 0 us.

Definition sum_outputs (os : list Output) : Z :=
  foldl (fun sum o => sum + amount_sats o) 0 os.

(** * The transaction builder of wallet-account-btc.js *)

Section Builder.

Variable electrum : ElectrumClient.
Variable lib : BitcoinJs.
(* this._address, returned by getAddress() *)
Variable own_address : string.

(** The body of the [for (const utxo of unspent)] loop of [_getUtxos],
    with [collected] and [totalCollected] as accumulators; [break] is
    the early [Ok]. *)
Fixpoint _getUtxos_loop (amount : Z) (unspent : list Unspent)
    (collected : list Collected) (totalCollected : Z) : res (list Collected) :=
  match unspent with
  | [] => Ok collected
  | u :: rest =>
      tx ← getTransaction electrum (tx_hash u);
      match outs tx !! tx_pos u with
      | None => Throw TypeError
      | Some o =>
          let collectedVout := mkTxOut (script o) (out_value o) in
          let collected' := collected ++ [mkCollected u collectedVout] in
          let totalCollected' := totalCollected + value u in
          if amount <=? totalCollected' then Ok collected'
          else _getUtxos_loop amount rest collected' totalCollected'
      end
  end.

Definition _getUtxos (amount : Z) (address : string) : res (list Collected) :=
  unspent ← getUnspent electrum address;
  match unspent with
  | None | Some [] => Throw (Error NO_UNSPENT)
  | Some us => _getUtxos_loop amount us [] 0
  end.

(** [utxoSet.forEach((_, index) => psbt.signInputHD(index, this._bip32))] *)
Fixpoint sign_all (ins : list Collected) (os : list Output) (n : nat) (index : nat)
    : res (list string) :=
  match n with
  | O => Ok []
  | S n' =>
      w ← signInputHD lib ins os index;
      ws ← sign_all ins os n' (S index);
      Ok (w :: ws)
  end.

(** The closure [createPsbt] of [_getRawTransaction]. *)
Definition createPsbt (utxoSet : list Collected) (amount : Z) (recipient : string)
    (totalInput : Z) (fee : Z) : res Psbt :=
  if validAddress lib recipient then
    let change := totalInput - amount - fee in
    outs ←
      (if DUST_LIMIT <? change
       then Ok [mkOutput recipient amount; mkOutput own_address change]
       else if change <? 0 then Throw (Error INSUFFICIENT)
       else Ok [mkOutput recipient amount]);
    ws ← sign_all utxoSet outs (length utxoSet) 0;
    Ok (mkPsbt utxoSet outs ws)
  else Throw (LibraryError "addOutput").

Definition extractTransaction (psbt : Psbt) : res Psbt :=
  _ ← checkFees lib psbt; Ok psbt.

(** [new BigNumber(feeRate).multipliedBy(vsize).integerValue(ROUND_CEIL)]
    and [BigNumber.max(estimatedFee, 141)]. *)
Definition estimate_fee (feeRate : Q) (vsize : Z) : Z :=
  Z.max (Qceiling (feeRate * inject_Z vsize)) 141.

Definition _getRawTransaction (utxoSet : list Collected) (amount : Z)
    (recipient : string) (feeRate : Q) : res RawTransaction :=
  if amount <=? DUST_LIMIT then Throw (Error BELOW_DUST)
  else
    let totalInput := sum_values utxoSet in
    psbt ← createPsbt utxoSet amount recipient totalInput 0;
    dummyTx ← extractTransaction psbt;
    let estimatedFee := estimate_fee feeRate (virtualSize lib dummyTx) in
    psbt ← createPsbt utxoSet amount recipient totalInput estimatedFee;
    tx ← extractTransaction psbt;
    Ok (mkRawTransaction (getId lib tx) (toHex lib tx) estimatedFee).

(** [if (feeRateInSatsPerVb.lt(1)) feeRateInSatsPerVb = new BigNumber(1)] *)
Definition clamp_rate (feeRate : Q) : Q :=
  if Qlt_le_dec feeRate 1 then 1%Q else feeRate.

Definition _getTransaction (recipient : string) (amount : Z) : res RawTransaction :=
  let address := own_address in
  utxoSet ← _getUtxos amount address;
  feeRateInSatsPerVb ← getFeeEstimateInSatsPerVb electrum;
  _getRawTransaction utxoSet amount recipient (clamp_rate feeRateInSatsPerVb).

Definition sendTransaction (to : string) (value : Z) : res TransactionResult :=
  tx ← _getTransaction to value;
  _ ← broadcastTransaction electrum (hex tx);
  Ok (mkTransactionResult (txid tx) (fee tx)).

Definition quoteSendTransaction (to : string) (value : Z) : res Z :=
  tx ← _getTransaction to value;
  Ok (fee tx).

(** The fee a successful [_getTransaction] reports. *)
Definition fee_rule (recipient : string) (amount : Z) (f : Z) : Prop :=
  exists est utxoSet dummyTx,
    getFeeEstimateInSatsPerVb electrum = Ok est /\
    _getUtxos amount own_address = Ok utxoSet /\
    createPsbt utxoSet amount recipient (sum_values utxoSet) 0 = Ok dummyTx /\
    f = Z.max 141 (Qceiling (Qmax 1 est * inject_Z (virtualSize lib dummyTx))).

(** ** Properties of the builder *)

Lemma bind_Ok {A B} (m : res A) (f : A -> res B) (b : B) :
  (m ≫= f) = Ok b -> exists a, m = Ok a /\ f a = Ok b.
Proof. destruct m as [a|e]; simpl; [eauto | discriminate]. Qed.

Lemma extractTransaction_Ok psbt tx :
  extractTransaction psbt = Ok tx -> tx = psbt.
Proof.
  unfold extractTransaction. intros H.
  apply bind_Ok in H as (_ & _ & H). congruence.
Qed.

Lemma clamp_rate_max (feeRate : Q) : (clamp_rate feeRate == Qmax 1 feeRate)%Q.
Proof.
  unfold clamp_rate.
  destruct (Qlt_le_dec feeRate 1) as [Hlt|Hle].
  - symmetry. apply Q.max_l. now apply Qlt_le_weak.
  - symmetry. now apply Q.max_r.
Qed.

Lemma estimate_fee_proper (q1 q2 : Q) (vsize : Z) :
  (q1 == q2)%Q -> estimate_fee q1 vsize = estimate_fee q2 vsize.
Proof. intros H. unfold estimate_fee. now rewrite H. Qed.

Lemma estimate_fee_floor feeRate vsize : 141 <= estimate_fee feeRate vsize.
Proof. unfold estimate_fee. lia. Qed.

Lemma sum_values_snoc us u : sum_values (us ++ [u]) = sum_values us + value (utxo u).
Proof. unfold sum_values. now rewrite foldl_app. Qed.

(** What a successful [createPsbt] has built. *)
Lemma createPsbt_Ok utxoSet amount recipient totalInput fee0 psbt :
  createPsbt utxoSet amount recipient totalInput fee0 = Ok psbt ->
  let change := totalInput - amount - fee0 in
  validAddress lib recipient = true /\
  0 <= change /\
  inputs psbt = utxoSet /\
  outputs psbt =
    mkOutput recipient amount ::
    (if DUST_LIMIT <? change then [mkOutput own_address change] else []).
Proof.
  intros H change. unfold createPsbt in H.
  destruct (validAddress lib recipient); [|discriminate].
  apply bind_Ok in H as (os & Hos & H).
  apply bind_Ok in H as (ws & _ & H).
  injection H as <-. simpl. fold change in Hos.
  destruct (DUST_LIMIT <? change) eqn:Hd.
  - apply Z.ltb_lt in Hd. unfold DUST_LIMIT in Hd.
    injection Hos as <-. repeat split; try done; lia.
  - destruct (change <? 0) eqn:Hn; [discriminate|].
    apply Z.ltb_ge in Hn. injection Hos as <-. done.
Qed.

(** [createPsbt] rejects a fee the inputs cannot pay. *)
Lemma createPsbt_short utxoSet amount recipient totalInput fee0 :
  totalInput - amount - fee0 < 0 ->
  forall psbt, createPsbt utxoSet amount recipient totalInput fee0 <> Ok psbt.
Proof.
  intros Hneg psbt H. apply createPsbt_Ok in H as (_ & H & _). lia.
Qed.

(** The shape of a successful [_getRawTransaction]: the two calls of
    [createPsbt] and the fee between them. *)
Lemma _getRawTransaction_Ok utxoSet amount recipient feeRate r :
  _getRawTransaction utxoSet amount recipient feeRate = Ok r ->
  exists dummyTx tx,
    DUST_LIMIT < amount /\
    createPsbt utxoSet amount recipient (sum_values utxoSet) 0 = Ok dummyTx /\
    fee r = estimate_fee feeRate (virtualSize lib dummyTx) /\
    createPsbt utxoSet amount recipient (sum_values utxoSet) (fee r) = Ok tx /\
    txid r = getId lib tx /\ hex r = toHex lib tx.
Proof.
  unfold _getRawTransaction. intros H.
  destruct (amount <=? DUST_LIMIT) eqn:Hd; [discriminate|].
  apply Z.leb_gt in Hd.
  apply bind_Ok in H as (p0 & Hp0 & H).
  apply bind_Ok in H as (d & Hd0 & H).
  apply extractTransaction_Ok in Hd0 as ->.
  apply bind_Ok in H as (p1 & Hp1 & H).
  apply bind_Ok in H as (t & Ht & H).
  apply extractTransaction_Ok in Ht as ->.
  injection H as <-. simpl. exists p0, p1. repeat split; auto.
Qed.

(** C5.  A transaction built by [_getRawTransaction] has the recipient
    output of [amount] sats first; it is followed by one change output
    to the account's own address exactly when
    [change = sum(inputs) - amount - fee] exceeds 546 sats, and that
    output carries [change] sats; otherwise there is no second output and
    the transaction pays [fee + change] to the miners. *)
Theorem built_transaction_outputs utxoSet amount recipient feeRate r :
  _getRawTransaction utxoSet amount recipient feeRate = Ok r ->
  exists tx,
    hex r = toHex lib tx /\ txid r = getId lib tx /\
    inputs tx = utxoSet /\
    let change := sum_values (inputs tx) - amount - fee r in
    0 <= change /\
    outputs tx =
      mkOutput recipient amount ::
      (if DUST_LIMIT <? change then [mkOutput own_address change] else []) /\
    (DUST_LIMIT < change ->
      sum_values (inputs tx) - sum_outputs (outputs tx) = fee r) /\
    (change <= DUST_LIMIT ->
      sum_values (inputs tx) - sum_outputs (outputs tx) = fee r + change).
Proof.
  intros H.
  apply _getRawTransaction_Ok in H as (d & tx & _ & _ & _ & Htx & Hid & Hhex).
  apply createPsbt_Ok in Htx as (_ & Hge & Hin & Hout).
  exists tx. rewrite Hin. cbv zeta. rewrite Hout.
  repeat split; try assumption.
  - intros Hc. apply Z.ltb_lt in Hc. rewrite Hc. unfold sum_outputs. simpl. lia.
  - intros Hc. apply Z.ltb_ge in Hc. rewrite Hc. unfold sum_outputs. simpl. lia.
Qed.

Lemma _getTransaction_fee recipient amount r :
  _getTransaction recipient amount = Ok r -> fee_rule recipient amount (fee r).
Proof.
  unfold _getTransaction. intros H.
  apply bind_Ok in H as (us & Hus & H).
  apply bind_Ok in H as (est & Hest & H).
  apply _getRawTransaction_Ok in H as (d & tx & _ & Hd & Hfee & _).
  exists est, us, d. repeat split; try assumption.
  rewrite Hfee, (estimate_fee_proper _ _ _ (clamp_rate_max est)).
  apply Z.max_comm.
Qed.

(** C6.  The fee of a transaction built by [sendTransaction] or
    [quoteSendTransaction] is [max(141, ceil(vsize * rate))], where
    [vsize] is the virtual size of the signed transaction built with
    fee 0 and [rate] is the Electrum estimate raised to at least 1. *)
Theorem fee_is_estimate (to : string) (value : Z) :
  (forall r, sendTransaction to value = Ok r -> fee_rule to value (result_fee r)) /\
  (forall f, quoteSendTransaction to value = Ok f -> fee_rule to value f).
Proof.
  split.
  - intros r H. unfold sendTransaction in H.
    apply bind_Ok in H as (tx & Htx & H).
    apply bind_Ok in H as (? & _ & H). injection H as <-. simpl.
    now apply _getTransaction_fee.
  - intros f H. unfold quoteSendTransaction in H.
    apply bind_Ok in H as (tx & Htx & H). injection H as <-.
    now apply _getTransaction_fee.
Qed.

(** The selection of [_getUtxos] stops at the first prefix whose value
    reaches [amount]: whatever it returns, the builder never looks at
    the rest of the unspent list again. *)
Lemma _getRawTransaction_short utxoSet amount recipient feeRate :
  sum_values utxoSet < amount + 141 ->
  forall r, _getRawTransaction utxoSet amount recipient feeRate <> Ok r.
Proof.
  intros Hshort r H.
  apply _getRawTransaction_Ok in H as (d & tx & _ & _ & Hfee & Htx & _).
  pose proof (estimate_fee_floor feeRate (virtualSize lib d)) as Hfloor.
  apply createPsbt_Ok in Htx as (_ & Hge & _). lia.
Qed.

(** X1.  The builder fails for want of balance as soon as the selection
    made for the amount alone cannot pay the fee; the unspent outputs
    that were not selected play no part. *)
Lemma _getTransaction_insufficient recipient amount utxoSet est dummyTx :
  _getUtxos amount own_address = Ok utxoSet ->
  getFeeEstimateInSatsPerVb electrum = Ok est ->
  DUST_LIMIT < amount ->
  createPsbt utxoSet amount recipient (sum_values utxoSet) 0 = Ok dummyTx ->
  checkFees lib dummyTx = Ok tt ->
  sum_values utxoSet < amount + estimate_fee (clamp_rate est) (virtualSize lib dummyTx) ->
  _getTransaction recipient amount = Throw (Error INSUFFICIENT).
Proof.
  intros Hus Hest Hdust Hdummy Hcheck Hshort.
  unfold _getTransaction. rewrite Hus, Hest. cbn [mbind res_bind].
  unfold _getRawTransaction.
  destruct (amount <=? DUST_LIMIT) eqn:Hd; [apply Z.leb_le in Hd; lia|].
  rewrite Hdummy. cbn [mbind res_bind].
  assert (extractTransaction dummyTx = Ok dummyTx) as ->
    by (unfold extractTransaction; rewrite Hcheck; reflexivity).
  cbn [mbind res_bind].
  apply createPsbt_Ok in Hdummy as (Hvalid & _).
  unfold createPsbt. rewrite Hvalid.
  set (change := sum_values utxoSet - amount - _).
  assert (change < 0) as Hneg by (unfold change; lia).
  destruct (DUST_LIMIT <? change) eqn:Hc; [apply Z.ltb_lt in Hc; unfold DUST_LIMIT in Hc; lia|].
  destruct (change <? 0) eqn:Hn; [reflexivity|apply Z.ltb_ge in Hn; lia].
Qed.

(** ** The selection of [_getUtxos] *)

Lemma sum_values_cons c us : sum_values (c :: us) = value (utxo c) + sum_values us.
Proof.
  assert (forall l a, foldl (fun sum u => sum + value (utxo u)) a l
                      = a + foldl (fun sum u => sum + value (utxo u)) 0 l) as Hshift.
  { induction l as [|u l IH]; intros a; simpl; [lia|].
    rewrite (IH (a + value (utxo u))), (IH (0 + value (utxo u))). lia. }
  unfold sum_values. simpl. rewrite Hshift. lia.
Qed.

(** The loop invariant: what has been added to [collected] is a prefix
    of the unspent list, each entry with the output it refers to, and
    the loop went on as long as the total stayed below [amount]. *)
Lemma _getUtxos_loop_Ok amount : forall unspent collected totalCollected result,
  _getUtxos_loop amount unspent collected totalCollected = Ok result ->
  exists sel,
    result = collected ++ sel /\
    map utxo sel = take (length sel) unspent /\
    (unspent <> [] -> sel <> []) /\
    (forall k, (0 < k < length sel)%nat ->
       totalCollected + sum_values (take k sel) < amount) /\
    (totalCollected + sum_values sel < amount -> length sel = length unspent) /\
    Forall (fun c => exists tx,
              getTransaction electrum (tx_hash (utxo c)) = Ok tx /\
              outs tx !! tx_pos (utxo c) = Some (vout c)) sel.
Proof.
  induction unspent as [|u rest IH]; intros collected total result H; simpl in H.
  - injection H as <-. exists []. rewrite app_nil_r.
    repeat split; try done. simpl. lia.
  - apply bind_Ok in H as (tx & Htx & H).
    destruct (outs tx !! tx_pos u) as [o|] eqn:Ho; [|discriminate].
    assert (mkTxOut (script o) (out_value o) = o) as Heta by (by destruct o).
    rewrite Heta in H.
    assert (exists tx0, getTransaction electrum (tx_hash (utxo (mkCollected u o))) = Ok tx0 /\
                        outs tx0 !! tx_pos (utxo (mkCollected u o)) = Some (vout (mkCollected u o)))
      as Hc by (by exists tx).
    destruct (amount <=? total + value u) eqn:Hcover.
    + apply Z.leb_le in Hcover. injection H as <-. exists [mkCollected u o].
      repeat split; try done.
      * simpl. intros k Hk. lia.
      * rewrite sum_values_cons. unfold sum_values. simpl. lia.
      * by apply Forall_singleton.
    + apply Z.leb_gt in Hcover.
      apply IH in H as (sel & -> & Hmap & _ & Hbelow & Hall & Hfor).
      exists (mkCollected u o :: sel). rewrite <- app_assoc.
      repeat split; try done.
      * simpl. by rewrite Hmap.
      * intros k Hk. destruct k as [|k]; [lia|]. simpl. rewrite sum_values_cons. simpl.
        destruct k as [|k].
        -- rewrite take_0. unfold sum_values. simpl. lia.
        -- specialize (Hbelow (S k)). simpl in Hk. lia.
      * rewrite sum_values_cons. simpl. intros Hlt. rewrite Hall; [done|lia].
      * by apply Forall_cons.
Qed.

(** X2.  What [_getUtxos] returns is a non-empty prefix of the unspent
    list in the order of the server, each entry with the output of its
    transaction at [tx_pos]: the shortest prefix whose value reaches
    [amount], or the whole list when its value does not reach it. *)
Theorem _getUtxos_selection amount address collected :
  _getUtxos amount address = Ok collected ->
  exists unspent,
    getUnspent electrum address = Ok (Some unspent) /\
    collected <> [] /\
    map utxo collected = take (length collected) unspent /\
    (forall k, (0 < k < length collected)%nat -> sum_values (take k collected) < amount) /\
    (sum_values collected < amount -> length collected = length unspent) /\
    (forall c, c ∈ collected ->
       exists tx,
         getTransaction electrum (tx_hash (utxo c)) = Ok tx /\
         outs tx !! tx_pos (utxo c) = Some (vout c)).
Proof.
  unfold _getUtxos. intros H.
  apply bind_Ok in H as (unspent & Hun & H).
  destruct unspent as [[|u rest]|]; try discriminate.
  apply _getUtxos_loop_Ok in H as (sel & -> & Hmap & Hne & Hbelow & Hall & Hfor).
  exists (u :: rest). rewrite app_nil_l.
  repeat split; try done.
  - by apply Hne.
  - by apply Forall_forall.
Qed.

(** X3.  With nothing unspent, sending and quoting fail with "No unspent
    outputs available." whatever the recipient and the amount: the
    unspent list is read before the fee estimate is asked for and before
    the amount is compared with the dust limit. *)
Theorem nothing_unspent_rejected to value :
  getUnspent electrum own_address = Ok None \/
  getUnspent electrum own_address = Ok (Some []) ->
  _getUtxos value own_address = Throw (Error NO_UNSPENT) /\
  sendTransaction to value = Throw (Error NO_UNSPENT) /\
  quoteSendTransaction to value = Throw (Error NO_UNSPENT).
Proof.
  intros H.
  assert (_getUtxos value own_address = Throw (Error NO_UNSPENT)) as Hu.
  { unfold _getUtxos. by destruct H as [-> | ->]. }
  repeat split; [done| |];
    unfold sendTransaction, quoteSendTransaction, _getTransaction; by rewrite Hu.
Qed.

(** X4.  An amount of 546 sats or less is never sent: [_getRawTransaction]
    refuses it before it looks at the unspent outputs, the recipient or
    the fee rate, and once the selection and the fee estimate have been
    obtained [sendTransaction] and [quoteSendTransaction] fail with the
    dust-limit error. *)
Theorem dust_amount_rejected to amount :
  amount <= DUST_LIMIT ->
  (forall utxoSet recipient feeRate,
     _getRawTransaction utxoSet amount recipient feeRate = Throw (Error BELOW_DUST)) /\
  (forall r, sendTransaction to amount <> Ok r) /\
  (forall f, quoteSendTransaction to amount <> Ok f) /\
  (is_ok (_getUtxos amount own_address) = true ->
   is_ok (getFeeEstimateInSatsPerVb electrum) = true ->
   sendTransaction to amount = Throw (Error BELOW_DUST) /\
   quoteSendTransaction to amount = Throw (Error BELOW_DUST)).
Proof.
  intros Hdust.
  assert (forall utxoSet recipient feeRate,
            _getRawTransaction utxoSet amount recipient feeRate = Throw (Error BELOW_DUST))
    as Hraw.
  { intros. unfold _getRawTransaction. apply Z.leb_le in Hdust. by rewrite Hdust. }
  assert (forall r, _getTransaction to amount <> Ok r) as Hget.
  { intros r H. unfold _getTransaction in H.
    apply bind_Ok in H as (us & _ & H). apply bind_Ok in H as (est & _ & H).
    by rewrite Hraw in H. }
  repeat split.
  - exact Hraw.
  - intros r H. unfold sendTransaction in H.
    apply bind_Ok in H as (tx & Htx & _). by apply Hget in Htx.
  - intros f H. unfold quoteSendTransaction in H.
    apply bind_Ok in H as (tx & Htx & _). by apply Hget in Htx.
  - unfold sendTransaction, _getTransaction.
    destruct (_getUtxos amount own_address); [|discriminate].
    destruct (getFeeEstimateInSatsPerVb electrum); [|discriminate].
    cbn [mbind res_bind]. by rewrite Hraw.
  - unfold quoteSendTransaction, _getTransaction.
    destruct (_getUtxos amount own_address); [|discriminate].
    destruct (getFeeEstimateInSatsPerVb electrum); [|discriminate].
    cbn [mbind res_bind]. by rewrite Hraw.
Qed.

(** ** Sending and quoting *)

(** X5.  [sendTransaction] and [quoteSendTransaction] build the same
    transaction.  A send that succeeds reports the fee the quote gives,
    and as hash the id of the transaction it built, not the answer of
    the server; a quote that succeeds is a send that can only fail in
    the broadcast, with the error of the broadcast. *)
Theorem send_and_quote_agree to value :
  (forall r, sendTransaction to value = Ok r ->
     quoteSendTransaction to value = Ok (result_fee r) /\
     exists tx,
       _getTransaction to value = Ok tx /\
       result_hash r = txid tx /\
       is_ok (broadcastTransaction electrum (hex tx)) = true) /\
  (forall f, quoteSendTransaction to value = Ok f ->
     exists tx,
       _getTransaction to value = Ok tx /\
       fee tx = f /\
       sendTransaction to value =
       match broadcastTransaction electrum (hex tx) with
       | Ok _ => Ok (mkTransactionResult (txid tx) f)
       | Throw e => Throw e
       end).
Proof.
  split.
  - intros r H. unfold sendTransaction in H.
    apply bind_Ok in H as (tx & Htx & H).
    apply bind_Ok in H as (answer & Hb & H). injection H as <-. simpl.
    split.
    + unfold quoteSendTransaction. by rewrite Htx.
    + exists tx. by rewrite Hb.
  - intros f H. unfold quoteSendTransaction in H.
    apply bind_Ok in H as (tx & Htx & H). injection H as <-.
    exists tx. repeat split; [done|].
    unfold sendTransaction. rewrite Htx. cbn [mbind res_bind].
    by destruct (broadcastTransaction electrum (hex tx)).
Qed.

(** X6.  A transaction is only built for an amount above the dust
    limit, to an address the library accepts, with a fee of at least 141
    sats, and from a selection of unspent outputs worth at least the
    amount plus that fee. *)
Theorem built_transaction_bounds recipient amount r :
  _getTransaction recipient amount = Ok r ->
  exists utxoSet,
    _getUtxos amount own_address = Ok utxoSet /\
    validAddress lib recipient = true /\
    DUST_LIMIT < amount /\
    141 <= fee r /\
    amount + fee r <= sum_values utxoSet.
Proof.
  unfold _getTransaction. intros H.
  apply bind_Ok in H as (us & Hus & H).
  apply bind_Ok in H as (est & _ & H).
  apply _getRawTransaction_Ok in H as (d & tx & Hdust & _ & Hfee & Htx & _).
  apply createPsbt_Ok in Htx as (Hvalid & Hge & _).
  exists us. repeat split; try done.
  - rewrite Hfee. apply estimate_fee_floor.
  - lia.
Qed.

(** [sign_all] asks [signInputHD] for the inputs [index], [index + 1],
    ... in turn and keeps the answers in that order. *)
Lemma sign_all_Ok ins os : forall n index ws,
  sign_all ins os n index = Ok ws ->
  length ws = n /\
  forall i, (i < n)%nat ->
    exists w, ws !! i = Some w /\ signInputHD lib ins os (index + i) = Ok w.
Proof.
  induction n as [|n IH]; intros index ws H; simpl in H.
  - injection H as <-. split; [done|]. intros i Hi. lia.
  - apply bind_Ok in H as (w & Hw & H).
    apply bind_Ok in H as (ws' & Hws & H). injection H as <-.
    apply IH in Hws as [Hlen Hrest]. split; [simpl; lia|].
    intros [|i] Hi.
    + exists w. by rewrite Nat.add_0_r.
    + destruct (Hrest i) as (w' & Hl & Hs); [lia|].
      exists w'. split; [done|]. by rewrite <- Nat.add_succ_comm.
Qed.

(** X7.  A PSBT that [createPsbt] returns is signed throughout: its
    inputs are the given unspent outputs, it holds one witness per
    input, and the witness of input [i] is what [signInputHD] answered
    for index [i] on the inputs and outputs of that PSBT. *)
Theorem every_input_is_signed utxoSet amount recipient totalInput fee0 psbt :
  createPsbt utxoSet amount recipient totalInput fee0 = Ok psbt ->
  inputs psbt = utxoSet /\
  length (witnesses psbt) = length utxoSet /\
  forall i, (i < length utxoSet)%nat ->
    exists w,
      witnesses psbt !! i = Some w /\
      signInputHD lib utxoSet (outputs psbt) i = Ok w.
Proof.
  unfold createPsbt. intros H.
  destruct (validAddress lib recipient); [|discriminate].
  apply bind_Ok in H as (os & _ & H).
  apply bind_Ok in H as (ws & Hws & H). injection H as <-. simpl.
  apply sign_all_Ok in Hws as [Hlen Hall]. done.
Qed.

End Builder.

(** * The fee estimator of wallet-account-read-only-btc.js *)

(** ** Doubles

    The estimator leaves BigNumber arithmetic: [Number(feeRate)] is a
    JavaScript number, an IEEE-754 double, and [vsize * feeRate] is a
    product of doubles.  A finite double is a rational [m * 2^e] with
    [m] below [2^53] and [e] at least [-1074], and a conversion or a
    product returns the double nearest to the exact value, a tie going
    to the even [m].  Doubles are modelled by the rationals they denote;
    the overflow to [Infinity] beyond [2^1024] is left out, as it is for
    the satoshi amounts. *)

Definition pow2 (e : Z) : Q :=
  if 0 <=? e then inject_Z (2 ^ e) else Qinv (inject_Z (2 ^ (- e))).

(** The [k] with [2^k <= q < 2^(k+1)], for a positive [q]. *)
Definition binade (q : Q) : Z :=
  let k := Z.log2 (Qnum q) - Z.log2 (Zpos (Qden q)) in
  if Qle_bool (pow2 k) q then k else k - 1.

(** The nearest integer, the even one of two that are equally near. *)
Definition nearest_even (q : Q) : Z :=
  let f := Qfloor q in
  match Qcompare (q - inject_Z f) (1 # 2) with
  | Lt => f
  | Gt => f + 1
  | Eq => if Z.even f then f else f + 1
  end.

(** The double nearest to a positive [q]: 53 significant bits, or fewer
    for a subnormal. *)
Definition round_magnitude (q : Q) : Q :=
  let e := Z.max (binade q - 52) (-1074) in
  Qred (inject_Z (nearest_even (q / pow2 e)) * pow2 e).

(** The double nearest to [q]: what [Number(x)] and [x.toNumber()]
    return for a BigNumber [x] of value [q], and what an arithmetic
    operation on doubles returns when its exact result is [q]. *)
Definition to_double (q : Q) : Q :=
  match Qcompare q 0 with
  | Eq => 0%Q
  | Gt => round_magnitude q
  | Lt => Qopp (round_magnitude (Qopp q))
  end.

Section Estimator.

Variable electrum : ElectrumClient.
Variable lib : BitcoinJs.

(** [Math.max(a, b)] on exact values. *)
Definition Math_max (a b : Q) : Q :=
  if Qlt_le_dec a b then b else a.

Section Loop.

Variable feeRate : Q.
Variable fromScript toScript : string.
(* the amount to send, [value] in the source *)
Variable sats : Z.

(** One pass of the loop body after [selected.push(u); total += u.value]:
    the provisional PSBT and the fee measured on it,
    [Math.max(Math.ceil(vsize * feeRate), 141)] with the product taken
    in doubles. *)
Definition measure_fee (selected : list Unspent) (total : Z) : res Z :=
  let provisionalChange := total - sats in
  let outs :=
    mkTxOut toScript sats ::
    (if DUST_LIMIT <? provisionalChange
     then [mkTxOut fromScript provisionalChange] else []) in
  vsize ← dummyVirtualSize lib selected outs;
  Ok (Z.max (Qceiling (to_double (inject_Z vsize * feeRate))) 141).

(** [for (const u of utxos)] with [selected], [total] and [fee] as
    accumulators; the result is [(total, fee)] at loop exit. *)
Fixpoint _estimateFee_loop (utxos selected : list Unspent) (total fee0 : Z)
    : res (Z * Z) :=
  match utxos with
  | [] => Ok (total, fee0)
  | u :: rest =>
      let selected' := selected ++ [u] in
      let total' := total + value u in
      fee' ← measure_fee selected' total';
      if sats + fee' <=? total' then Ok (total', fee')
      else _estimateFee_loop rest selected' total' fee'
  end.

End Loop.

(** [feeRate = Math.max(Number(feeRate), 1)] turns the BigNumber of the
    server into a double before the loop. *)
Definition _estimateFee (fromAddress to : string) (sats : Z) : res Z :=
  feeRate ← getFeeEstimateInSatsPerVb electrum;
  let feeRate := Math_max (to_double feeRate) 1 in
  utxos ← getUnspent electrum fromAddress;
  match utxos with
  | None | Some [] => Throw (Error NO_UNSPENT)
  | Some us =>
      fromScript ← toOutputScript lib fromAddress;
      toScript ← toOutputScript lib to;
      '(total, fee) ← _estimateFee_loop feeRate fromScript toScript sats us [] 0 0;
      if total <? sats + fee then Throw (Error INSUFFICIENT) else Ok fee
  end.

Definition sum_unspent (us : list Unspent) : Z :=
  foldr (fun u sum => value u + sum) 0 us.

(** ** Doubles that are integers

    An integer up to [2^53] is a double, so that a conversion or a
    product whose exact value is such an integer returns it: at an
    integral rate the fee is measured exactly. *)

Lemma nearest_even_integer (q : Q) (n : Z) :
  (q == inject_Z n)%Q -> nearest_even q = n.
Proof.
  intros Hq. unfold nearest_even.
  assert (Qfloor q = n) as Hf by (rewrite Hq; apply Qfloor_Z).
  rewrite Hf.
  assert (q - inject_Z n == 0)%Q as H0 by (rewrite Hq; ring).
  assert ((q - inject_Z n ?= 1 # 2)%Q = Lt) as ->; [|reflexivity].
  rewrite <- Qlt_alt. rewrite H0. reflexivity.
Qed.

Lemma pow2_pos e : (0 < pow2 e)%Q.
Proof.
  unfold pow2. destruct (0 <=? e) eqn:He.
  - apply Z.leb_le in He. change 0%Q with (inject_Z 0). rewrite <- Zlt_Qlt.
    apply Z.pow_pos_nonneg; lia.
  - apply Z.leb_gt in He. apply Qinv_lt_0_compat.
    change 0%Q with (inject_Z 0). rewrite <- Zlt_Qlt. apply Z.pow_pos_nonneg; lia.
Qed.

Lemma Qred_inject_Z z : Qred (inject_Z z) = inject_Z z.
Proof.
  unfold Qred, inject_Z.
  pose proof (Z.ggcd_gcd z 1) as Hg. pose proof (Z.ggcd_correct_divisors z 1) as Hd.
  destruct (Z.ggcd z 1) as [g [aa bb]]. simpl in *. rewrite Z.gcd_1_r in Hg. subst g.
  destruct Hd as [Ha Hb]. rewrite Z.mul_1_l in Ha, Hb. subst. reflexivity.
Qed.

Lemma round_magnitude_integer (z : Z) :
  0 < z <= 2 ^ 53 -> round_magnitude (inject_Z z) = inject_Z z.
Proof.
  intros Hz. unfold round_magnitude.
  assert (binade (inject_Z z) = Z.log2 z) as ->.
  { unfold binade. simpl. rewrite Z.sub_0_r.
    assert (Qle_bool (pow2 (Z.log2 z)) (inject_Z z) = true) as ->; [|reflexivity].
    apply Qle_bool_iff. unfold pow2.
    pose proof (Z.log2_nonneg z) as Hn. apply Z.leb_le in Hn. rewrite Hn.
    rewrite <- Zle_Qle. apply Z.log2_spec. lia. }
  pose proof (Z.log2_nonneg z) as Hk0.
  assert (Z.log2 z <= 53) as Hk.
  { replace 53 with (Z.log2 (2 ^ 53)) by reflexivity. apply Z.log2_le_mono. lia. }
  rewrite Z.max_l by lia.
  set (k := Z.log2 z) in *.
  pose proof (Z.log2_spec z ltac:(lia)) as [Hlo Hhi]. fold k in Hlo, Hhi.
  set (e := k - 52).
  assert (exists n, (inject_Z z / pow2 e == inject_Z n)%Q) as [n Hn].
  { unfold pow2. destruct (0 <=? e) eqn:He.
    - apply Z.leb_le in He. assert (k = 53 \/ k = 52) as [Hk53|Hk52] by lia.
      + assert (z = 2 ^ 53) as -> by (rewrite Hk53 in Hlo; lia).
        unfold e. rewrite Hk53. exists (2 ^ 52). reflexivity.
      + unfold e. rewrite Hk52. exists z.
        change (inject_Z (2 ^ (52 - 52))) with 1%Q. field.
    - apply Z.leb_gt in He. exists (z * 2 ^ (- e)).
      rewrite inject_Z_mult. field.
      intros Habs.
      assert (0 < 2 ^ (- e)) as Hp by (apply Z.pow_pos_nonneg; lia).
      apply (Qlt_irrefl 0). rewrite <- Habs at 2.
      change 0%Q with (inject_Z 0). rewrite <- Zlt_Qlt. exact Hp. }
  rewrite (nearest_even_integer _ _ Hn).
  rewrite (Qred_complete (inject_Z n * pow2 e) (inject_Z z)).
  - apply Qred_inject_Z.
  - rewrite <- Hn. field. intros Habs. pose proof (pow2_pos e) as Hp. rewrite Habs in Hp.
    exact (Qlt_irrefl 0 Hp).
Qed.

Lemma to_double_integer (z : Z) :
  - 2 ^ 53 <= z <= 2 ^ 53 -> to_double (inject_Z z) = inject_Z z.
Proof.
  intros Hz. unfold to_double.
  assert (Qcompare (inject_Z z) 0 = Z.compare z 0) as ->.
  { unfold Qcompare. simpl. f_equal. lia. }
  destruct (Z.compare_spec z 0) as [->|Hneg|Hpos].
  - reflexivity.
  - change (- inject_Z z)%Q with (inject_Z (- z)).
    rewrite round_magnitude_integer by lia.
    unfold inject_Z, Qopp. simpl. rewrite Z.opp_involutive. reflexivity.
  - apply round_magnitude_integer. lia.
Qed.

(** At an integral rate the fee is the size times the rate, or 141. *)
Lemma measure_fee_integral_rate (rate : Z) fromScript toScript sats selected total fee0 :
  measure_fee (inject_Z rate) fromScript toScript sats selected total = Ok fee0 ->
  exists vsize,
    dummyVirtualSize lib selected
      (mkTxOut toScript sats ::
       (if DUST_LIMIT <? total - sats then [mkTxOut fromScript (total - sats)] else []))
      = Ok vsize /\
    (- 2 ^ 53 <= vsize * rate <= 2 ^ 53 -> fee0 = Z.max (vsize * rate) 141).
Proof.
  unfold measure_fee. intros H. apply bind_Ok in H as (vsize & Hsize & H).
  injection H as <-. exists vsize. split; [exact Hsize|]. intros Hrange.
  change (inject_Z vsize * inject_Z rate)%Q with (inject_Z (vsize * rate)).
  by rewrite to_double_integer, Qceiling_Z.
Qed.

(** The estimator keeps adding unspent outputs: when the loop leaves
    with too little, it has selected the whole list and measured the fee
    on it. *)
Lemma _estimateFee_loop_exhausted feeRate fromScript toScript sats :
  forall utxos selected total fee0 total' fee',
    utxos <> [] ->
    _estimateFee_loop feeRate fromScript toScript sats utxos selected total fee0
      = Ok (total', fee') ->
    total' < sats + fee' ->
    total' = total + sum_unspent utxos /\
    measure_fee feeRate fromScript toScript sats (selected ++ utxos) total' = Ok fee'.
Proof.
  induction utxos as [|u rest IH]; intros selected total fee0 total' fee' Hne H Hshort.
  - congruence.
  - simpl in H. apply bind_Ok in H as (f & Hf & H).
    destruct (sats + f <=? total + value u) eqn:Hcover.
    + apply Z.leb_le in Hcover. injection H as <- <-. lia.
    + destruct rest as [|u' rest'].
      * simpl in H. injection H as <- <-. simpl. split; [lia|exact Hf].
      * apply IH in H as [Ht Hm]; [|discriminate|assumption].
        split; [simpl in *; lia|]. now rewrite <- app_assoc in Hm.
Qed.

(** The loop raises nothing of its own: it fails only when a
    measurement does.  bitcoinjs-lib refuses to extract a transaction
    whose outputs exceed its inputs, so the measurements are asked to
    succeed only on selections worth at least the amount. *)
Lemma _estimateFee_loop_ok feeRate fromScript toScript sats :
  (forall sel total,
     sats <= total ->
     is_ok (measure_fee feeRate fromScript toScript sats sel total) = true) ->
  forall utxos selected total fee0,
    (forall n, (0 < n <= length utxos)%nat -> sats <= total + sum_unspent (take n utxos)) ->
    is_ok (_estimateFee_loop feeRate fromScript toScript sats utxos selected total fee0)
      = true.
Proof.
  intros Hsize. induction utxos as [|u rest IH]; intros selected total fee0 Hprefix; simpl.
  - reflexivity.
  - assert (sats <= total + value u) as Hu.
    { specialize (Hprefix 1%nat). cbn in Hprefix. rewrite take_0 in Hprefix.
      cbn in Hprefix. lia. }
    specialize (Hsize (selected ++ [u]) (total + value u) Hu).
    destruct (measure_fee feeRate fromScript toScript sats (selected ++ [u]) (total + value u));
      [|discriminate].
    cbn [mbind res_bind]. destruct (_ <=? _); [reflexivity|].
    apply IH. intros n Hn. specialize (Hprefix (S n)). cbn in Hprefix.
    unfold sum_unspent. lia.
Qed.

(** When the first unspent outputs already pay the amount, the
    measurements on such selections succeed, and the whole unspent list
    covers the amount plus the fee measured on it, the estimator returns
    a fee. *)
Lemma _estimateFee_covers fromAddress to sats est us fromScript toScript :
  getFeeEstimateInSatsPerVb electrum = Ok est ->
  getUnspent electrum fromAddress = Ok (Some us) ->
  us <> [] ->
  toOutputScript lib fromAddress = Ok fromScript ->
  toOutputScript lib to = Ok toScript ->
  (forall sel total,
     sats <= total ->
     is_ok (measure_fee (Math_max (to_double est) 1) fromScript toScript sats sel total) = true) ->
  (forall n, (0 < n <= length us)%nat -> sats <= sum_unspent (take n us)) ->
  (forall feeAll,
     measure_fee (Math_max (to_double est) 1) fromScript toScript sats us (sum_unspent us) = Ok feeAll ->
     sats + feeAll <= sum_unspent us) ->
  is_ok (_estimateFee fromAddress to sats) = true.
Proof.
  intros Hest Hus Hne Hfrom Hto Hsize Hprefix Hcover.
  unfold _estimateFee. rewrite Hest, Hus. simpl.
  destruct us as [|u0 us0]; [congruence|].
  rewrite Hfrom, Hto. cbn [mbind res_bind].
  set (rate := Math_max (to_double est) 1) in *.
  destruct (_estimateFee_loop rate fromScript toScript sats (u0 :: us0) [] 0 0)
    as [[total fee0]|e] eqn:Hloop.
  - cbn [mbind res_bind].
    destruct (total <? sats + fee0) eqn:Hlt; [|reflexivity].
    apply Z.ltb_lt in Hlt.
    apply _estimateFee_loop_exhausted in Hloop as [Ht Hm]; [|discriminate|assumption].
    rewrite Z.add_0_l in Ht. subst total. rewrite app_nil_l in Hm.
    apply Hcover in Hm. lia.
  - assert (is_ok (_estimateFee_loop rate fromScript toScript sats (u0 :: us0) [] 0 0)
            = true) as Hok.
    { apply _estimateFee_loop_ok; [exact Hsize|].
      intros n Hn. rewrite Z.add_0_l. by apply Hprefix. }
    rewrite Hloop in Hok. discriminate.
Qed.

(** Whatever the loop returns was measured on a selection that is a
    non-empty prefix of the unspent list. *)
Lemma _estimateFee_loop_selected feeRate fromScript toScript sats :
  forall utxos selected total fee0 total' fee',
    utxos <> [] ->
    _estimateFee_loop feeRate fromScript toScript sats utxos selected total fee0
      = Ok (total', fee') ->
    exists n,
      (0 < n <= length utxos)%nat /\
      total' = total + sum_unspent (take n utxos) /\
      measure_fee feeRate fromScript toScript sats (selected ++ take n utxos) total'
        = Ok fee'.
Proof.
  induction utxos as [|u rest IH]; intros selected total fee0 total' fee' Hne H.
  - congruence.
  - simpl in H. apply bind_Ok in H as (f & Hf & H).
    destruct (sats + f <=? total + value u) eqn:Hcover.
    + injection H as <- <-. exists 1%nat. simpl. rewrite take_0.
      repeat split; [lia|lia|simpl; lia|exact Hf].
    + destruct rest as [|u' rest'].
      * simpl in H. injection H as <- <-. exists 1%nat. simpl.
        repeat split; [lia|lia|lia|exact Hf].
      * apply IH in H as (n & Hn & Ht & Hm); [|discriminate].
        exists (S n). cbn [take length sum_unspent foldr].
        repeat split; [lia|simpl in Hn; lia| |].
        -- rewrite Ht. unfold sum_unspent. lia.
        -- now rewrite <- app_assoc in Hm.
Qed.

(** The fee [_estimateFee] returns: measured on a non-empty prefix of
    the unspent list that pays the amount and that fee, with the rate
    raised to at least 1. *)
Lemma _estimateFee_Ok fromAddress to sats f :
  _estimateFee fromAddress to sats = Ok f ->
  exists est us fromScript toScript n,
    getFeeEstimateInSatsPerVb electrum = Ok est /\
    getUnspent electrum fromAddress = Ok (Some us) /\
    toOutputScript lib fromAddress = Ok fromScript /\
    toOutputScript lib to = Ok toScript /\
    (0 < n <= length us)%nat /\
    measure_fee (Math_max (to_double est) 1) fromScript toScript sats (take n us)
      (sum_unspent (take n us)) = Ok f /\
    141 <= f /\
    sats + f <= sum_unspent (take n us).
Proof.
  unfold _estimateFee. intros H.
  apply bind_Ok in H as (est & Hest & H).
  apply bind_Ok in H as (utxos & Hus & H).
  destruct utxos as [[|u0 us0]|]; try discriminate.
  apply bind_Ok in H as (fromScript & Hfrom & H).
  apply bind_Ok in H as (toScript & Hto & H).
  apply bind_Ok in H as ([total fee0] & Hloop & H).
  destruct (total <? sats + fee0) eqn:Hlt; [discriminate|].
  apply Z.ltb_ge in Hlt. injection H as <-.
  apply _estimateFee_loop_selected in Hloop as (n & Hn & Ht & Hm); [|discriminate].
  rewrite Z.add_0_l in Ht. subst total. rewrite app_nil_l in Hm.
  exists est, (u0 :: us0), fromScript, toScript, n.
  repeat split; try assumption; try lia.
  unfold measure_fee in Hm. apply bind_Ok in Hm as (v & _ & Hm).
  injection Hm as <-. lia.
Qed.

(** The loop leaves at the first prefix that pays the amount and the
    fee measured on it: every shorter prefix was measured and found
    short. *)
Lemma _estimateFee_loop_first feeRate fromScript toScript sats :
  forall utxos selected total fee0 total' fee',
    utxos <> [] ->
    _estimateFee_loop feeRate fromScript toScript sats utxos selected total fee0
      = Ok (total', fee') ->
    exists n,
      (0 < n <= length utxos)%nat /\
      total' = total + sum_unspent (take n utxos) /\
      measure_fee feeRate fromScript toScript sats (selected ++ take n utxos) total'
        = Ok fee' /\
      (total' < sats + fee' -> n = length utxos) /\
      forall k, (0 < k < n)%nat ->
        exists fk,
          measure_fee feeRate fromScript toScript sats (selected ++ take k utxos)
            (total + sum_unspent (take k utxos)) = Ok fk /\
          total + sum_unspent (take k utxos) < sats + fk.
Proof.
  induction utxos as [|u rest IH]; intros selected total fee0 total' fee' Hne H.
  - congruence.
  - simpl in H. apply bind_Ok in H as (f & Hf & H).
    destruct (sats + f <=? total + value u) eqn:Hcover.
    + apply Z.leb_le in Hcover. injection H as <- <-. exists 1%nat. simpl. rewrite take_0.
      repeat split; [lia|lia|simpl; lia|exact Hf|lia|].
      intros k Hk. lia.
    + apply Z.leb_gt in Hcover. destruct rest as [|u' rest'].
      * simpl in H. injection H as <- <-. exists 1%nat. simpl.
        repeat split; [lia|lia|lia|exact Hf|].
        intros k Hk. lia.
      * apply IH in H as (n & Hn & Ht & Hm & Hlast & Hshort); [|discriminate].
        exists (S n). cbn [take length sum_unspent foldr].
        repeat split; [lia|simpl in Hn; lia| | | |].
        -- rewrite Ht. unfold sum_unspent. lia.
        -- now rewrite <- app_assoc in Hm.
        -- intros Hlt. by rewrite Hlast.
        -- intros [|k] Hk; [lia|]. destruct k as [|k].
           ++ exists f. unfold sum_unspent. simpl.
              rewrite Z.add_0_r. split; [exact Hf|lia].
           ++ destruct (Hshort (S k)) as (fk & Hmk & Hlk); [lia|].
              exists fk. rewrite <- app_assoc in Hmk.
              unfold sum_unspent in *. simpl in *.
              rewrite Z.add_assoc. split; [exact Hmk|exact Hlk].
Qed.

(** X8.  The fee [_estimateFee] returns was measured on the shortest
    non-empty prefix of the unspent list, in the order of the server,
    that pays the amount and the fee measured on it; every shorter
    prefix was measured too and found short.  The fee is at least 141
    sats and the rate is the estimate of the server as a double, raised
    to at least 1. *)
Theorem _estimateFee_first_cover fromAddress to sats f :
  _estimateFee fromAddress to sats = Ok f ->
  exists est us fromScript toScript n,
    getFeeEstimateInSatsPerVb electrum = Ok est /\
    getUnspent electrum fromAddress = Ok (Some us) /\
    toOutputScript lib fromAddress = Ok fromScript /\
    toOutputScript lib to = Ok toScript /\
    (0 < n <= length us)%nat /\
    measure_fee (Math_max (to_double est) 1) fromScript toScript sats (take n us)
      (sum_unspent (take n us)) = Ok f /\
    141 <= f /\
    sats + f <= sum_unspent (take n us) /\
    forall k, (0 < k < n)%nat ->
      exists fk,
        measure_fee (Math_max (to_double est) 1) fromScript toScript sats (take k us)
          (sum_unspent (take k us)) = Ok fk /\
        sum_unspent (take k us) < sats + fk.
Proof.
  unfold _estimateFee. intros H.
  apply bind_Ok in H as (est & Hest & H).
  apply bind_Ok in H as (utxos & Hus & H).
  destruct utxos as [[|u0 us0]|]; try discriminate.
  apply bind_Ok in H as (fromScript & Hfrom & H).
  apply bind_Ok in H as (toScript & Hto & H).
  apply bind_Ok in H as ([total fee0] & Hloop & H).
  destruct (total <? sats + fee0) eqn:Hlt; [discriminate|].
  apply Z.ltb_ge in Hlt. injection H as <-.
  apply _estimateFee_loop_first in Hloop as (n & Hn & Ht & Hm & _ & Hshort); [|discriminate].
  rewrite Z.add_0_l in Ht. subst total. rewrite app_nil_l in Hm.
  exists est, (u0 :: us0), fromScript, toScript, n.
  repeat split; try assumption; try lia.
  - unfold measure_fee in Hm. apply bind_Ok in Hm as (v & _ & Hm).
    injection Hm as <-. lia.
Qed.

(** When no prefix pays the amount and the fee measured on it, the loop
    runs to the end of the list. *)
Lemma _estimateFee_loop_short feeRate fromScript toScript sats :
  forall utxos selected total fee0,
    utxos <> [] ->
    (forall n, (0 < n <= length utxos)%nat ->
       exists fn,
         measure_fee feeRate fromScript toScript sats (selected ++ take n utxos)
           (total + sum_unspent (take n utxos)) = Ok fn /\
         total + sum_unspent (take n utxos) < sats + fn) ->
    exists fee',
      _estimateFee_loop feeRate fromScript toScript sats utxos selected total fee0
        = Ok (total + sum_unspent utxos, fee') /\
      total + sum_unspent utxos < sats + fee'.
Proof.
  induction utxos as [|u rest IH]; intros selected total fee0 Hne Hall; [congruence|].
  destruct (Hall 1%nat) as (f & Hf & Hlt); [simpl; lia|].
  cbn [take foldr sum_unspent] in Hf, Hlt. rewrite take_0 in Hf, Hlt.
  simpl in Hf, Hlt. rewrite Z.add_0_r in Hf, Hlt.
  simpl. rewrite Hf. cbn [mbind res_bind].
  destruct (sats + f <=? total + value u) eqn:Hcover; [apply Z.leb_le in Hcover; lia|].
  destruct rest as [|u' rest'].
  - simpl. exists f. rewrite Z.add_0_r. split; [done|lia].
  - destruct (IH (selected ++ [u]) (total + value u) f) as (fee' & Hloop & Hshort);
      [discriminate| |].
    + intros n Hn. destruct (Hall (S n)) as (fn & Hmn & Hln); [simpl in *; lia|].
      exists fn. cbn [take foldr sum_unspent] in Hmn, Hln.
      fold (sum_unspent (take n (u' :: rest'))) in Hmn, Hln.
      rewrite <- app_assoc. simpl. rewrite <- Z.add_assoc. split; [exact Hmn|exact Hln].
    + exists fee'. cbn [foldr sum_unspent].
      fold (sum_unspent (u' :: rest')). rewrite Z.add_assoc. split; [exact Hloop|exact Hshort].
Qed.

(** X9.  When every non-empty prefix of the unspent list can be
    measured and none pays the amount and the fee measured on it,
    [_estimateFee] fails with "Insufficient balance to send the
    transaction.". *)
Theorem _estimateFee_insufficient fromAddress to sats est us fromScript toScript :
  getFeeEstimateInSatsPerVb electrum = Ok est ->
  getUnspent electrum fromAddress = Ok (Some us) ->
  us <> [] ->
  toOutputScript lib fromAddress = Ok fromScript ->
  toOutputScript lib to = Ok toScript ->
  (forall n, (0 < n <= length us)%nat ->
     exists fn,
       measure_fee (Math_max (to_double est) 1) fromScript toScript sats (take n us)
         (sum_unspent (take n us)) = Ok fn /\
       sum_unspent (take n us) < sats + fn) ->
  _estimateFee fromAddress to sats = Throw (Error INSUFFICIENT).
Proof.
  intros Hest Hus Hne Hfrom Hto Hall.
  unfold _estimateFee. rewrite Hest, Hus. cbn [mbind res_bind].
  destruct us as [|u0 us0]; [congruence|].
  rewrite Hfrom, Hto. cbn [mbind res_bind].
  destruct (_estimateFee_loop_short (Math_max (to_double est) 1) fromScript toScript sats
              (u0 :: us0) [] 0 0) as (fee' & Hloop & Hshort); [discriminate| |].
  - intros n Hn. destruct (Hall n Hn) as (fn & Hm & Hl).
    exists fn. rewrite app_nil_l, Z.add_0_l. by split.
  - rewrite Hloop. cbn [mbind res_bind].
    apply Z.ltb_lt in Hshort. by rewrite Hshort.
Qed.

End Estimator.

(** * Transfer history: [getTransfers] of wallet-account-read-only-btc.js *)

(** The [directionType] of an output. *)
Inductive Direction : Type := incoming | outgoing | change.

Definition direction_name (d : Direction) : string :=
  match d with
  | incoming => "incoming"
  | outgoing => "outgoing"
  | change => "change"
  end.

(** A [BtcTransfer] record. *)
Record Transfer : Type := mkTransfer {
  t_txid : string;
  t_height : Z;
  t_value : Z;
  t_vout : nat;
  t_direction : Direction;
  t_recipient : option string;
  t_fee : option Z;
  t_address : string
}.

(** The [options] argument: a missing field is [undefined] and takes its
    default in the destructuring
    [{ direction = 'all', limit = 10, skip = 0 } = options]. *)
Record TransferOptions : Type := mkTransferOptions {
  opt_direction : option string;
  opt_limit : option Z;
  opt_skip : option Z
}.

(** [Array.prototype.slice(start)] for an integer [start]: a negative
    [start] counts from the end. *)
Definition slice {A} (l : list A) (start : Z) : list A :=
  let len := Z.of_nat (length l) in
  let k := if start <? 0 then Z.max (len + start) 0 else Z.min start len in
  drop (Z.to_nat k) l.

Section Transfers.

Variable electrum : ElectrumClient.
Variable lib : BitcoinJs.
(* this.getAddress() *)
Variable address : string.

(** [getTx]: the transaction cache is a [Map] from txid to decoded
    transaction; only successful fetches are stored. *)
Definition getTx (txCache : gmap string Transaction) (txid : string)
    : res Transaction * gmap string Transaction :=
  match txCache !! txid with
  | Some tx => (Ok tx, txCache)
  | None =>
      match getTransaction electrum txid with
      | Ok tx => (Ok tx, <[txid := tx]> txCache)
      | Throw e => (Throw e, txCache)
      end
  end.

(** [Promise.all(tx.ins.map(async (input) => ...))]: the previous output
    of each input, [null] when the parent cannot be fetched or has no
    such output.  Every closure runs up to its first [await] before any
    request completes, so that each looks into the cache as it is when
    the map starts. *)
Definition prevOuts_of (txCache : gmap string Transaction) (inputs : list TxIn)
    : list (option TxOut) :=
  map
    (fun input =>
       match fst (getTx txCache (hash input)) with
       | Ok prevTx => outs prevTx !! index input
       | Throw _ => None
       end)
    inputs.

(** The cache once these requests have completed: the parents that were
    not cached and could be fetched are stored. *)
Definition cache_after (txCache : gmap string Transaction) (inputs : list TxIn)
    : gmap string Transaction :=
  foldl
    (fun cache input =>
       match txCache !! hash input with
       | Some _ => cache
       | None =>
           match getTransaction electrum (hash input) with
           | Ok prevTx => <[hash input := prevTx]> cache
           | Throw _ => cache
           end
       end)
    txCache inputs.

Section WithOptions.

Variable myScript : string.
Variable direction : string.
Variable limit : Z.

(** [for (const prevOut of prevOuts)], with [totalInput] and
    [isOutgoing] as accumulators. *)
Definition scan_prevOuts (prevOuts : list (option TxOut)) : Z * bool :=
  foldl
    (fun '(totalInput, isOutgoing) prevOut =>
       match prevOut with
       | None => (totalInput, isOutgoing)
       | Some prevOut =>
           (totalInput + out_value prevOut,
            if negb isOutgoing && String.eqb (script prevOut) myScript
            then true else isOutgoing)
       end)
    (0, false) prevOuts.

(** The [if / else if / else continue] chain; [None] is [continue]. *)
Definition classify (toSelf isOutgoing : bool) : option Direction :=
  if toSelf && negb isOutgoing then Some incoming
  else if negb toSelf && isOutgoing then Some outgoing
  else if toSelf && isOutgoing then Some change
  else None.

Definition recipient_of (out : TxOut) : option string :=
  match fromOutputScript lib (script out) with
  | Ok a => Some a
  | Throw _ => None
  end.

(** Whether the output passes the two [continue] filters that follow the
    classification. *)
Definition emitted (directionType : Direction) : bool :=
  match directionType with
  | change => false
  | _ =>
      negb (negb (String.eqb direction "all")
            && negb (String.eqb direction (direction_name directionType)))
  end.

(** [for (let vout = 0; vout < tx.outs.length; vout++)], from index
    [vout] on, with [transfers] as accumulator. *)
Fixpoint outs_loop (item : HistoryItem) (fee : option Z) (isOutgoing : bool)
    (outs : list TxOut) (vout : nat) (transfers : list Transfer) : list Transfer :=
  match outs with
  | [] => transfers
  | out :: rest =>
      let toSelf := String.eqb (script out) myScript in
      match classify toSelf isOutgoing with
      | None => outs_loop item fee isOutgoing rest (S vout) transfers
      | Some directionType =>
          if negb (emitted directionType)
          then outs_loop item fee isOutgoing rest (S vout) transfers
          else if limit <=? Z.of_nat (length transfers) then transfers
          else
            let recipient := recipient_of out in
            outs_loop item fee isOutgoing rest (S vout)
              (transfers ++
               [mkTransfer (item_tx_hash item) (height item) (out_value out) vout
                  directionType recipient fee address])
      end
  end.

Definition total_output (tx : Transaction) : Z :=
  foldl (fun sum o => sum + out_value o) 0 (outs tx).

(** [for (const item of history.slice(skip))], with the cache and
    [transfers] as state. *)
Fixpoint history_loop (items : list HistoryItem) (txCache : gmap string Transaction)
    (transfers : list Transfer) : list Transfer :=
  match items with
  | [] => transfers
  | item :: rest =>
      if limit <=? Z.of_nat (length transfers) then transfers
      else
        match getTx txCache (item_tx_hash item) with
        | (Throw _, txCache1) => history_loop rest txCache1 transfers
        | (Ok tx, txCache1) =>
            let prevOuts := prevOuts_of txCache1 (ins tx) in
            let txCache2 := cache_after txCache1 (ins tx) in
            let '(totalInput, isOutgoing) := scan_prevOuts prevOuts in
            let totalOutput := total_output tx in
            let fee := if 0 <? totalInput then Some (totalInput - totalOutput) else None in
            history_loop rest txCache2
              (outs_loop item fee isOutgoing (outs tx) 0 transfers)
        end
  end.

(** *** The same computation without cache, limit or accumulators *)

(** The previous output of an input, fetched from the server. *)
Definition fetch_prevOut (input : TxIn) : option TxOut :=
  match getTransaction electrum (hash input) with
  | Ok prevTx => outs prevTx !! index input
  | Throw _ => None
  end.

Definition fee_of (totalInput totalOutput : Z) : option Z :=
  if 0 <? totalInput then Some (totalInput - totalOutput) else None.

(** The records of the outputs [outs], numbered from [vout]. *)
Fixpoint records_from (item : HistoryItem) (fee : option Z) (isOutgoing : bool)
    (outs : list TxOut) (vout : nat) : list Transfer :=
  match outs with
  | [] => []
  | out :: rest =>
      match classify (String.eqb (script out) myScript) isOutgoing with
      | Some directionType =>
          if emitted directionType
          then [mkTransfer (item_tx_hash item) (height item) (out_value out) vout
                  directionType (recipient_of out) fee address]
          else []
      | None => []
      end ++ records_from item fee isOutgoing rest (S vout)
  end.

(** All the records of one history entry. *)
Definition records_of_item (item : HistoryItem) : list Transfer :=
  match getTransaction electrum (item_tx_hash item) with
  | Throw _ => []
  | Ok tx =>
      let scanned := scan_prevOuts (map fetch_prevOut (ins tx)) in
      records_from item (fee_of (fst scanned) (total_output tx)) (snd scanned) (outs tx) 0
  end.

End WithOptions.

Definition getTransfers (options : TransferOptions) : res (list Transfer) :=
  let direction := default "all" (opt_direction options) in
  let limit := default 10 (opt_limit options) in
  let skip := default 0 (opt_skip options) in
  history ← getHistory electrum address;
  myScript ← toOutputScript lib address;
  Ok (history_loop myScript direction limit (slice history skip) ∅ []).

(** Every cached transaction is the one the server sends. *)
Definition cache_ok (txCache : gmap string Transaction) : Prop :=
  forall txid tx, txCache !! txid = Some tx -> getTransaction electrum txid = Ok tx.

(** The sum over the previous outputs that were found. *)
Definition sum_resolved (prevOuts : list (option TxOut)) : Z :=
  foldr (fun prevOut sum =>
           match prevOut with Some o => out_value o + sum | None => sum end)
        0 prevOuts.

(** Whether a previous output that was found pays [myScript]. *)
Definition pays_self (myScript : string) (prevOuts : list (option TxOut)) : bool :=
  existsb (fun prevOut =>
             match prevOut with
             | Some o => String.eqb (script o) myScript
             | None => false
             end)
          prevOuts.

(** ** The cache is transparent *)

Lemma cache_ok_empty : cache_ok ∅.
Proof. intros txid tx H. by rewrite lookup_empty in H. Qed.

Lemma getTx_spec txCache txid :
  cache_ok txCache ->
  fst (getTx txCache txid) = getTransaction electrum txid /\
  cache_ok (snd (getTx txCache txid)).
Proof.
  intros Hok. unfold getTx.
  destruct (txCache !! txid) as [tx|] eqn:Hc; simpl.
  - split; [symmetry; by apply Hok | done].
  - destruct (getTransaction electrum txid) as [tx|e] eqn:Hg; simpl; split; try done.
    intros k tx' Hk. destruct (decide (txid = k)) as [->|Hne].
    + rewrite lookup_insert_eq in Hk. congruence.
    + rewrite lookup_insert_ne in Hk by done. by apply Hok.
Qed.

Lemma prevOuts_of_spec inputs txCache :
  cache_ok txCache ->
  prevOuts_of txCache inputs = map fetch_prevOut inputs.
Proof.
  intros Hok. unfold prevOuts_of. apply map_ext. intros input. unfold fetch_prevOut.
  by rewrite (proj1 (getTx_spec txCache (hash input) Hok)).
Qed.

Lemma cache_after_ok inputs txCache :
  cache_ok txCache -> cache_ok (cache_after txCache inputs).
Proof.
  intros Hok. unfold cache_after.
  generalize Hok. generalize txCache at 1 3.
  induction inputs as [|input rest IH]; intros cache Hcache; simpl; [done|].
  apply IH. destruct (txCache !! hash input); [done|].
  destruct (getTransaction electrum (hash input)) as [prevTx|e] eqn:Hg; [|done].
  intros k tx Hk. destruct (decide (hash input = k)) as [<-|Hne].
  - rewrite lookup_insert_eq in Hk. congruence.
  - rewrite lookup_insert_ne in Hk by done. by apply Hcache.
Qed.

(** ** The loops against their specification *)

Section Loops.

Variable myScript : string.
Variable direction : string.
Variable limit : Z.

Let cap : nat := Z.to_nat limit.

Lemma limit_reached (transfers : list Transfer) :
  (limit <=? Z.of_nat (length transfers)) = true <-> (cap <= length transfers)%nat.
Proof. unfold cap. rewrite Z.leb_le. lia. Qed.

Lemma outs_loop_spec item fee isOutgoing outs : forall vout transfers,
  outs_loop myScript direction limit item fee isOutgoing outs vout transfers =
  transfers ++
  take (cap - length transfers)
    (records_from myScript direction item fee isOutgoing outs vout).
Proof.
  induction outs as [|out rest IH]; intros vout transfers; simpl.
  - by rewrite take_nil, app_nil_r.
  - destruct (classify _ isOutgoing) as [d|]; [|by rewrite IH].
    destruct (emitted direction d); simpl; [|by rewrite IH].
    destruct (limit <=? Z.of_nat (length transfers)) eqn:Hlim.
    + apply limit_reached in Hlim.
      replace (cap - length transfers)%nat with 0%nat by lia.
      by rewrite app_nil_r.
    + assert (length transfers < cap)%nat as Hlt.
      { destruct (le_lt_dec cap (length transfers)) as [Hle|]; [|done].
        apply limit_reached in Hle. congruence. }
      rewrite IH, length_app. simpl.
      destruct (cap - length transfers)%nat as [|k] eqn:Hk; [lia|].
      simpl. rewrite <- app_assoc. simpl.
      by replace (cap - (length transfers + 1))%nat with k by lia.
Qed.

Lemma take_app_take {A} (n : nat) (l k : list A) :
  take n l ++ take (n - length (take n l)) k = take n (l ++ k).
Proof.
  rewrite take_app, length_take.
  destruct (le_lt_dec n (length l)).
  - replace (n `min` length l)%nat with n by lia.
    by replace (n - length l)%nat with (n - n)%nat by lia.
  - by replace (n `min` length l)%nat with (length l) by lia.
Qed.

Lemma history_loop_spec items : forall txCache transfers,
  cache_ok txCache ->
  history_loop myScript direction limit items txCache transfers =
  transfers ++
  take (cap - length transfers) (items ≫= records_of_item myScript direction).
Proof.
  induction items as [|item rest IH]; intros txCache transfers Hok; simpl.
  - by rewrite take_nil, app_nil_r.
  - destruct (limit <=? Z.of_nat (length transfers)) eqn:Hlim.
    { apply limit_reached in Hlim.
      replace (cap - length transfers)%nat with 0%nat by lia.
      by rewrite app_nil_r. }
    unfold records_of_item at 1.
    destruct (getTx_spec txCache (item_tx_hash item) Hok) as [Hfst Hok1].
    destruct (getTx txCache (item_tx_hash item)) as [tx txCache1].
    simpl in Hfst, Hok1. rewrite <- Hfst.
    destruct tx as [tx|e]; [|by rewrite IH].
    rewrite (prevOuts_of_spec (ins tx) txCache1 Hok1).
    destruct (scan_prevOuts myScript (map fetch_prevOut (ins tx)))
      as [totalInput isOutgoing]. simpl.
    rewrite IH by (by apply cache_after_ok). rewrite outs_loop_spec.
    rewrite <- app_assoc. f_equal. rewrite length_app.
    rewrite Nat.sub_add_distr. fold (fee_of totalInput (total_output tx)).
    apply take_app_take.
Qed.

End Loops.

(** [getTransfers] returns the first [limit] records of the entries
    that remain after [slice]. *)
Theorem getTransfers_spec options history myScript :
  getHistory electrum address = Ok history ->
  toOutputScript lib address = Ok myScript ->
  getTransfers options =
  Ok (take (Z.to_nat (default 10 (opt_limit options)))
        (slice history (default 0 (opt_skip options)) ≫=
         records_of_item myScript (default "all" (opt_direction options)))).
Proof.
  intros Hh Hs. unfold getTransfers. rewrite Hh, Hs. simpl.
  rewrite history_loop_spec by apply cache_ok_empty.
  simpl. by rewrite Nat.sub_0_r.
Qed.

(** X10.  The transaction cache changes no result.  A transaction that
    was fetched is found in the cache afterwards, and the next lookup
    answers from the cache and leaves it as it is; a request that failed
    stores nothing; and from whatever cache of transactions of the
    server the loop over the history starts, it returns what it returns
    from the empty cache. *)
Theorem cache_is_transparent myScript direction limit items txCache transfers :
  cache_ok txCache ->
  (forall id tx,
     fst (getTx txCache id) = Ok tx ->
     snd (getTx txCache id) !! id = Some tx /\
     getTx (snd (getTx txCache id)) id = (Ok tx, snd (getTx txCache id))) /\
  (forall id e,
     fst (getTx txCache id) = Throw e -> snd (getTx txCache id) = txCache) /\
  history_loop myScript direction limit items txCache transfers =
  history_loop myScript direction limit items ∅ transfers.
Proof.
  intros Hok. split; [|split].
  - intros id tx. unfold getTx.
    destruct (txCache !! id) as [cached|] eqn:Hc; simpl.
    + intros [= ->]. by rewrite Hc.
    + destruct (getTransaction electrum id) as [fetched|]; simpl; [|done].
      intros [= ->]. by rewrite lookup_insert_eq.
  - intros id e. unfold getTx.
    destruct (txCache !! id); [done|].
    by destruct (getTransaction electrum id).
  - rewrite !history_loop_spec; [done|apply cache_ok_empty|done].
Qed.

(** ** What the scan of the previous outputs computes *)

Lemma scan_prevOuts_spec myScript prevOuts :
  scan_prevOuts myScript prevOuts = (sum_resolved prevOuts, pays_self myScript prevOuts).
Proof.
  unfold scan_prevOuts.
  assert (forall total flag,
    foldl
      (fun '(totalInput, isOutgoing) prevOut =>
         match prevOut with
         | None => (totalInput, isOutgoing)
         | Some prevOut =>
             (totalInput + out_value prevOut,
              if negb isOutgoing && String.eqb (script prevOut) myScript
              then true else isOutgoing)
         end)
      (total, flag) prevOuts
    = (total + sum_resolved prevOuts, flag || pays_self myScript prevOuts)) as Hgen.
  { induction prevOuts as [|[o|] rest IH]; intros total flag; simpl.
    - by rewrite Z.add_0_r, orb_false_r.
    - rewrite IH. f_equal; [lia|].
      destruct flag, (String.eqb (script o) myScript); reflexivity.
    - apply IH. }
  rewrite Hgen. by rewrite Z.add_0_l.
Qed.

Lemma sum_resolved_all_missing prevOuts :
  (forall prevOut, prevOut ∈ prevOuts -> prevOut = None) -> sum_resolved prevOuts = 0.
Proof.
  induction prevOuts as [|prevOut rest IH]; intros Hall; simpl; [done|].
  rewrite (Hall prevOut) by apply list_elem_of_here.
  apply IH. intros q Hq. apply Hall. by apply list_elem_of_further.
Qed.

(** ** What an emitted record says *)

Lemma classify_emitted direction toSelf isOutgoing d :
  classify toSelf isOutgoing = Some d ->
  emitted direction d = true ->
  (d = incoming /\ toSelf = true /\ isOutgoing = false) \/
  (d = outgoing /\ toSelf = false /\ isOutgoing = true).
Proof.
  unfold classify.
  destruct toSelf, isOutgoing; simpl; intros [= <-]; simpl; auto; discriminate.
Qed.

Lemma records_from_elem myScript direction item fee isOutgoing outs r :
  forall vout,
  r ∈ records_from myScript direction item fee isOutgoing outs vout ->
  exists out,
    (vout <= t_vout r)%nat /\
    outs !! (t_vout r - vout)%nat = Some out /\
    classify (String.eqb (script out) myScript) isOutgoing = Some (t_direction r) /\
    emitted direction (t_direction r) = true /\
    t_txid r = item_tx_hash item /\ t_height r = height item /\
    t_value r = out_value out /\ t_fee r = fee /\
    t_recipient r = recipient_of out /\ t_address r = address.
Proof.
  induction outs as [|out rest IH]; intros vout Hr; simpl in Hr.
  - by apply elem_of_nil in Hr.
  - apply elem_of_app in Hr as [Hr|Hr].
    + destruct (classify _ isOutgoing) as [d|] eqn:Hc; [|by apply elem_of_nil in Hr].
      destruct (emitted direction d) eqn:He; [|by apply elem_of_nil in Hr].
      apply list_elem_of_singleton in Hr as ->. simpl.
      exists out. rewrite Nat.sub_diag. simpl. repeat split; auto.
    + apply IH in Hr as (o & Hle & Hlook & Hrest).
      exists o. split; [lia|]. split; [|exact Hrest].
      replace (t_vout r - vout)%nat with (S (t_vout r - S vout)) by lia. exact Hlook.
Qed.

Lemma records_of_item_elem myScript direction item r :
  r ∈ records_of_item myScript direction item ->
  exists tx out,
    t_txid r = item_tx_hash item /\
    getTransaction electrum (t_txid r) = Ok tx /\
    outs tx !! t_vout r = Some out /\
    classify (String.eqb (script out) myScript)
      (pays_self myScript (map fetch_prevOut (ins tx))) = Some (t_direction r) /\
    emitted direction (t_direction r) = true /\
    t_value r = out_value out /\
    t_fee r = fee_of (sum_resolved (map fetch_prevOut (ins tx))) (total_output tx).
Proof.
  unfold records_of_item. intros Hr.
  destruct (getTransaction electrum (item_tx_hash item)) as [tx|e] eqn:Hg;
    [|by apply elem_of_nil in Hr].
  rewrite scan_prevOuts_spec in Hr. simpl in Hr.
  apply records_from_elem in Hr as (out & _ & Hlook & Hc & He & Htx & _ & Hv & Hf & _).
  rewrite Nat.sub_0_r in Hlook.
  exists tx, out. rewrite Htx. auto 10.
Qed.

Lemma getTransfers_elem options transfers r :
  getTransfers options = Ok transfers ->
  r ∈ transfers ->
  exists history myScript item,
    getHistory electrum address = Ok history /\
    toOutputScript lib address = Ok myScript /\
    item ∈ history /\
    r ∈ records_of_item myScript (default "all" (opt_direction options)) item.
Proof.
  intros Hget Hr.
  destruct (getHistory electrum address) as [history|e] eqn:Hh;
    [|unfold getTransfers in Hget; rewrite Hh in Hget; discriminate].
  destruct (toOutputScript lib address) as [myScript|e] eqn:Hs;
    [|unfold getTransfers in Hget; rewrite Hh, Hs in Hget; discriminate].
  rewrite (getTransfers_spec options history myScript Hh Hs) in Hget.
  injection Hget as <-.
  apply subseteq_take in Hr. apply list_elem_of_bind in Hr as (item & Hr & Hitem).
  exists history, myScript, item. repeat split; try done.
  unfold slice in Hitem. eapply subseteq_drop, Hitem.
Qed.

(** C7.  Every record returned by [getTransfers] is [incoming] or
    [outgoing], never [change]; the script of the output at the record's
    [vout] is the script of the account's address exactly when the
    record is [incoming]; and the record's direction is the
    classification of that output, so that outputs classified as change
    or left unclassified are not among the records. *)
Theorem transfer_direction options transfers r :
  getTransfers options = Ok transfers ->
  r ∈ transfers ->
  exists myScript tx out,
    toOutputScript lib address = Ok myScript /\
    getTransaction electrum (t_txid r) = Ok tx /\
    outs tx !! t_vout r = Some out /\
    (t_direction r = incoming \/ t_direction r = outgoing) /\
    t_direction r <> change /\
    (script out = myScript <-> t_direction r = incoming) /\
    classify (String.eqb (script out) myScript)
      (pays_self myScript (map fetch_prevOut (ins tx))) = Some (t_direction r).
Proof.
  intros Hget Hr.
  destruct (getTransfers_elem _ _ _ Hget Hr) as (history & myScript & item & _ & Hs & _ & Hrec).
  apply records_of_item_elem in Hrec as (tx & out & _ & Hg & Hlook & Hc & He & _).
  exists myScript, tx, out. repeat split; try done.
  - destruct (classify_emitted _ _ _ _ Hc He) as [(-> & _)|(-> & _)]; auto.
  - intros Heq. rewrite Heq in He. discriminate.
  - intros Hscript. apply String.eqb_eq in Hscript.
    destruct (classify_emitted _ _ _ _ Hc He) as [(-> & _)|(_ & Hf & _)];
      [done|congruence].
  - intros Hd.
    destruct (classify_emitted _ _ _ _ Hc He) as [(_ & Ht & _)|(Ho & _)];
      [by apply String.eqb_eq|congruence].
Qed.

Lemma pays_self_all_missing myScript prevOuts :
  (forall prevOut, prevOut ∈ prevOuts -> prevOut = None) ->
  pays_self myScript prevOuts = false.
Proof.
  induction prevOuts as [|prevOut rest IH]; intros Hall; simpl; [done|].
  rewrite (Hall prevOut) by apply list_elem_of_here. simpl.
  apply IH. intros q Hq. apply Hall. by apply list_elem_of_further.
Qed.

(** C4.  The fee of a record is computed from the previous outputs
    that could be fetched: an input whose parent is missing adds nothing
    to the input total and cannot mark the transaction as outgoing.  The
    only guard is on that total: the fee is [null] when it is not
    positive, and otherwise it is the total minus the sum of the
    outputs, whether or not a parent was missing.  So the records are
    incoming and carry no fee when no parent at all could be fetched,
    while a transaction with one parent fetched and another missing gets
    a number that is not the fee it paid. *)
Theorem transfer_fee options transfers r :
  getTransfers options = Ok transfers ->
  r ∈ transfers ->
  exists tx,
    getTransaction electrum (t_txid r) = Ok tx /\
    let totalInput := sum_resolved (map fetch_prevOut (ins tx)) in
    t_fee r = (if 0 <? totalInput then Some (totalInput - total_output tx) else None) /\
    ((forall input, input ∈ ins tx -> fetch_prevOut input = None) ->
     t_fee r = None /\ t_direction r = incoming).
Proof.
  intros Hget Hr.
  destruct (getTransfers_elem _ _ _ Hget Hr) as (history & myScript & item & _ & _ & _ & Hrec).
  apply records_of_item_elem in Hrec as (tx & out & _ & Hg & _ & Hc & He & _ & Hfee).
  exists tx. split; [done|]. split; [exact Hfee|].
  intros Hall.
  assert (forall prevOut, prevOut ∈ map fetch_prevOut (ins tx) -> prevOut = None) as Hnone.
  { intros prevOut Hin. apply list_elem_of_fmap in Hin as (input & -> & Hin). by apply Hall. }
  split.
  - by rewrite Hfee, sum_resolved_all_missing.
  - rewrite pays_self_all_missing in Hc by done.
    destruct (classify_emitted _ _ _ _ Hc He) as [(-> & _)|(_ & _ & Hf)]; [done|discriminate].
Qed.

Lemma slice_drop {A} (l : list A) (skip : Z) :
  0 <= skip -> slice l skip = drop (Z.to_nat skip) l.
Proof.
  intros Hskip. unfold slice.
  destruct (skip <? 0) eqn:Hneg; [apply Z.ltb_lt in Hneg; lia|].
  destruct (Z.le_gt_cases skip (Z.of_nat (length l))).
  - by rewrite Z.min_l.
  - rewrite Z.min_r by lia. rewrite Nat2Z.id.
    rewrite !drop_ge; [done|lia|lia].
Qed.

Lemma slice_beyond {A} (l : list A) (skip : Z) :
  Z.of_nat (length l) <= skip -> slice l skip = [].
Proof.
  intros Hskip. rewrite slice_drop by lia. apply drop_ge. lia.
Qed.

(** C8.  [skip] removes the first [skip] history entries, with all their
    outputs, before anything is classified; [limit] bounds the number of
    records; with [limit = 0], or with [skip] at least the length of the
    history, the result is empty. *)
Theorem pagination options history myScript :
  getHistory electrum address = Ok history ->
  toOutputScript lib address = Ok myScript ->
  let limit := default 10 (opt_limit options) in
  let skip := default 0 (opt_skip options) in
  let direction := default "all" (opt_direction options) in
  exists transfers,
    getTransfers options = Ok transfers /\
    (0 <= skip ->
       transfers =
       take (Z.to_nat limit)
         (drop (Z.to_nat skip) history ≫= records_of_item myScript direction)) /\
    (0 <= limit -> Z.of_nat (length transfers) <= limit) /\
    (limit = 0 -> transfers = []) /\
    (Z.of_nat (length history) <= skip -> transfers = []).
Proof.
  intros Hh Hs limit skip direction.
  eexists. split; [by apply getTransfers_spec|].
  fold limit skip direction. repeat split.
  - intros Hskip. by rewrite slice_drop.
  - intros Hlimit. rewrite length_take. lia.
  - intros ->. reflexivity.
  - intros Hskip. rewrite slice_beyond by done. apply take_nil.
Qed.

(** ** The options, further *)

(** A call that succeeds has read the history and the script of the
    address. *)
Lemma getTransfers_Ok options transfers :
  getTransfers options = Ok transfers ->
  exists history myScript,
    getHistory electrum address = Ok history /\
    toOutputScript lib address = Ok myScript /\
    transfers =
    take (Z.to_nat (default 10 (opt_limit options)))
      (slice history (default 0 (opt_skip options)) ≫=
       records_of_item myScript (default "all" (opt_direction options))).
Proof.
  intros Hget.
  destruct (getHistory electrum address) as [history|e] eqn:Hh;
    [|unfold getTransfers in Hget; rewrite Hh in Hget; discriminate].
  destruct (toOutputScript lib address) as [myScript|e] eqn:Hs;
    [|unfold getTransfers in Hget; rewrite Hh, Hs in Hget; discriminate].
  rewrite (getTransfers_spec options history myScript Hh Hs) in Hget.
  injection Hget as <-. by exists history, myScript.
Qed.

(** X11.  A smaller [limit] cuts the same list shorter: the result for
    [limit = n] is the first [n] records of the result for any
    [limit = m] with [n <= m], the direction and [skip] being the
    same. *)
Theorem limit_is_prefix direction skip (n m : Z) t1 t2 :
  n <= m ->
  getTransfers (mkTransferOptions direction (Some n) skip) = Ok t1 ->
  getTransfers (mkTransferOptions direction (Some m) skip) = Ok t2 ->
  t1 = take (Z.to_nat n) t2.
Proof.
  intros Hnm H1 H2.
  apply getTransfers_Ok in H1 as (h1 & s1 & Hh1 & Hs1 & ->).
  apply getTransfers_Ok in H2 as (h2 & s2 & Hh2 & Hs2 & ->).
  rewrite Hh1 in Hh2. injection Hh2 as <-.
  rewrite Hs1 in Hs2. injection Hs2 as <-.
  simpl. rewrite take_take. f_equal. lia.
Qed.

Lemma records_from_filter myScript direction item fee isOutgoing outs : forall vout,
  records_from myScript direction item fee isOutgoing outs vout =
  filter (fun r => direction = "all" \/ direction_name (t_direction r) = direction)
    (records_from myScript "all" item fee isOutgoing outs vout).
Proof.
  induction outs as [|out rest IH]; intros vout; simpl; [done|].
  rewrite filter_app, <- IH. f_equal.
  destruct (classify _ isOutgoing) as [d|]; [|done].
  unfold emitted.
  destruct d; simpl; [| |done];
    destruct (String.eqb_spec direction "all"),
             (String.eqb_spec direction "incoming"),
             (String.eqb_spec direction "outgoing");
    simpl;
    first [ by rewrite filter_cons_True by (simpl; intuition congruence)
          | by rewrite filter_cons_False by (simpl; intuition congruence) ].
Qed.

Lemma filter_bind {A B} (P : B -> Prop) `{forall b, Decision (P b)}
    (f : A -> list B) (l : list A) :
  filter P (l ≫= f) = l ≫= (fun a => filter P (f a)).
Proof.
  induction l as [|a l IH]; [done|].
  by rewrite !bind_cons, filter_app, IH.
Qed.

(** X12.  The [direction] option selects before [limit] counts: the
    result is the first [limit] records among those of direction
    [direction] that the same call with "all" would go through.  A
    direction other than "all", "incoming" and "outgoing" is no error
    and selects nothing. *)
Theorem direction_option d limit skip history myScript :
  getHistory electrum address = Ok history ->
  toOutputScript lib address = Ok myScript ->
  let all := slice history (default 0 skip) ≫= records_of_item myScript "all" in
  getTransfers (mkTransferOptions (Some d) limit skip) =
    Ok (take (Z.to_nat (default 10 limit))
          (filter (fun r => d = "all" \/ direction_name (t_direction r) = d) all)) /\
  (d <> "all" -> d <> "incoming" -> d <> "outgoing" ->
   getTransfers (mkTransferOptions (Some d) limit skip) = Ok []).
Proof.
  intros Hh Hs all.
  assert (getTransfers (mkTransferOptions (Some d) limit skip) =
          Ok (take (Z.to_nat (default 10 limit))
                (filter (fun r => d = "all" \/ direction_name (t_direction r) = d) all)))
    as Hget.
  { rewrite (getTransfers_spec _ history myScript Hh Hs). simpl.
    unfold all. rewrite filter_bind. do 2 f_equal.
    apply list_bind_ext; [|done]. intros item.
    unfold records_of_item.
    destruct (getTransaction electrum (item_tx_hash item)); [|done].
    apply records_from_filter. }
  split; [exact Hget|].
  intros Hall Hin Hout. rewrite Hget.
  replace (filter _ all) with (@nil Transfer); [by rewrite take_nil|].
  symmetry. apply elem_of_nil_inv. intros r Hr.
  apply list_elem_of_filter in Hr as [HP Hr].
  apply list_elem_of_bind in Hr as (item & Hr & _).
  apply records_of_item_elem in Hr as (tx & out & _ & _ & _ & Hc & He & _).
  destruct (classify_emitted _ _ _ _ Hc He) as [(Hd & _)|(Hd & _)];
    rewrite Hd in HP; simpl in HP; destruct HP; congruence.
Qed.

(** X13.  Options out of range are no error.  With a [limit] of 0 or
    less nothing is returned.  A negative [skip] counts from the end of
    the history, as [Array.prototype.slice] does: the records are those
    of the last [- skip] entries, and of the whole history when it has
    no more than [- skip] entries. *)
Theorem pagination_out_of_range options history myScript :
  getHistory electrum address = Ok history ->
  toOutputScript lib address = Ok myScript ->
  let limit := default 10 (opt_limit options) in
  let skip := default 0 (opt_skip options) in
  let direction := default "all" (opt_direction options) in
  (limit <= 0 -> getTransfers options = Ok []) /\
  (skip < 0 -> - skip <= Z.of_nat (length history) ->
   getTransfers options =
   Ok (take (Z.to_nat limit)
         (drop (length history - Z.to_nat (- skip)) history
          ≫= records_of_item myScript direction))) /\
  (skip <= - Z.of_nat (length history) ->
   getTransfers options =
   Ok (take (Z.to_nat limit) (history ≫= records_of_item myScript direction))).
Proof.
  intros Hh Hs limit skip direction.
  rewrite (getTransfers_spec options history myScript Hh Hs).
  fold limit skip direction. repeat split.
  - intros Hlimit. by replace (Z.to_nat limit) with 0%nat by lia.
  - intros Hneg Hlen. unfold slice.
    apply Z.ltb_lt in Hneg. rewrite Hneg. apply Z.ltb_lt in Hneg.
    do 4 f_equal. lia.
  - intros Hbeyond. unfold slice.
    destruct (skip <? 0) eqn:Hneg.
    + by rewrite Z.max_r by lia.
    + apply Z.ltb_ge in Hneg.
      by assert (Z.to_nat (skip `min` Z.of_nat (length history)) = 0%nat) as -> by lia.
Qed.

(** ** Each record and its output *)

(** Everything a record of one history entry says. *)
Lemma records_of_item_sound myScript direction item r :
  r ∈ records_of_item myScript direction item ->
  exists tx out,
    getTransaction electrum (item_tx_hash item) = Ok tx /\
    outs tx !! t_vout r = Some out /\
    t_txid r = item_tx_hash item /\ t_height r = height item /\
    t_value r = out_value out /\
    t_recipient r = recipient_of out /\
    t_address r = address.
Proof.
  unfold records_of_item. intros Hr.
  destruct (getTransaction electrum (item_tx_hash item)) as [tx|e] eqn:Hg;
    [|by apply elem_of_nil in Hr].
  apply records_from_elem in Hr as (out & _ & Hlook & _ & _ & Htx & Hh & Hv & _ & Hrec & Ha).
  rewrite Nat.sub_0_r in Hlook.
  by exists tx, out.
Qed.

(** X14.  [getTransfers] invents nothing: every record stands for one
    output of the transaction of one history entry.  It carries the id
    and the height of the entry, the index and the value of the output,
    the address the library decodes from the script of the output, or
    [null] when it decodes none, and the address of the account. *)
Theorem transfer_record_sound options transfers r :
  getTransfers options = Ok transfers ->
  r ∈ transfers ->
  exists history item tx out,
    getHistory electrum address = Ok history /\
    item ∈ history /\
    t_txid r = item_tx_hash item /\
    t_height r = height item /\
    getTransaction electrum (t_txid r) = Ok tx /\
    outs tx !! t_vout r = Some out /\
    t_value r = out_value out /\
    t_recipient r =
      match fromOutputScript lib (script out) with
      | Ok a => Some a
      | Throw _ => None
      end /\
    t_address r = address.
Proof.
  intros Hget Hr.
  destruct (getTransfers_elem _ _ _ Hget Hr) as (history & myScript & item & Hh & _ & Hitem & Hrec).
  apply records_of_item_sound in Hrec as (tx & out & Hg & Hlook & Htx & Hheight & Hv & Hrcp & Ha).
  exists history, item, tx, out. rewrite Htx. by repeat split.
Qed.

(** X15.  The records of one transaction agree: they carry the same
    fee, that of the whole transaction, and the same direction, so that
    no transaction is reported both as incoming and as outgoing. *)
Theorem records_of_a_transaction_agree options transfers r1 r2 :
  getTransfers options = Ok transfers ->
  r1 ∈ transfers ->
  r2 ∈ transfers ->
  t_txid r1 = t_txid r2 ->
  t_fee r1 = t_fee r2 /\ t_direction r1 = t_direction r2.
Proof.
  intros Hget Hr1 Hr2 Hid.
  destruct (getTransfers_elem _ _ _ Hget Hr1) as (h1 & s1 & i1 & _ & Hs1 & _ & Hrec1).
  destruct (getTransfers_elem _ _ _ Hget Hr2) as (h2 & s2 & i2 & _ & Hs2 & _ & Hrec2).
  rewrite Hs1 in Hs2. injection Hs2 as <-.
  apply records_of_item_elem in Hrec1 as (tx1 & o1 & _ & Hg1 & _ & Hc1 & He1 & _ & Hf1).
  apply records_of_item_elem in Hrec2 as (tx2 & o2 & _ & Hg2 & _ & Hc2 & He2 & _ & Hf2).
  rewrite Hid, Hg2 in Hg1. injection Hg1 as <-.
  split; [congruence|].
  destruct (classify_emitted _ _ _ _ Hc1 He1) as [(-> & _ & Ho1)|(-> & _ & Ho1)];
    destruct (classify_emitted _ _ _ _ Hc2 He2) as [(-> & _ & Ho2)|(-> & _ & Ho2)];
    congruence.
Qed.

(** The records of one history entry are in the order of the outputs:
    their indices grow. *)
Lemma records_from_NoDup myScript direction item fee isOutgoing outs : forall vout,
  NoDup ((fun r => (t_txid r, t_vout r)) <$> records_from myScript direction item fee isOutgoing outs vout).
Proof.
  induction outs as [|out rest IH]; intros vout; simpl; [constructor|].
  rewrite fmap_app. apply NoDup_app. split_and!.
  - destruct (classify _ isOutgoing) as [d|]; [|constructor].
    destruct (emitted direction d); [|constructor]. apply NoDup_singleton.
  - intros key Hkey Hrest.
    destruct (classify _ isOutgoing) as [d|]; [|by apply elem_of_nil in Hkey].
    destruct (emitted direction d); [|by apply elem_of_nil in Hkey].
    apply list_elem_of_singleton in Hkey as ->. simpl in Hrest.
    apply list_elem_of_fmap in Hrest as (r & Heq & Hr).
    apply records_from_elem in Hr as (o & Hle & _).
    injection Heq as _ Hv. lia.
  - apply IH.
Qed.

Lemma NoDup_fmap_eq {A B} (f : A -> B) (l : list A) x1 x2 :
  NoDup (f <$> l) -> x1 ∈ l -> x2 ∈ l -> f x1 = f x2 -> x1 = x2.
Proof.
  induction l as [|a l IH]; intros Hnd H1 H2 Heq; [by apply elem_of_nil in H1|].
  rewrite fmap_cons in Hnd. apply NoDup_cons in Hnd as [Hnotin Hnd].
  apply elem_of_cons in H1 as [->|H1]; apply elem_of_cons in H2 as [->|H2]; try done.
  - exfalso. apply Hnotin. rewrite Heq. by apply list_elem_of_fmap_2.
  - exfalso. apply Hnotin. rewrite <- Heq. by apply list_elem_of_fmap_2.
  - by apply IH.
Qed.

(** X16.  When no transaction id occurs twice among the history entries
    that are read, no output is reported twice: the pairs of [txid] and
    [vout] of the records are all different. *)
Theorem no_output_reported_twice options history transfers :
  getHistory electrum address = Ok history ->
  NoDup (item_tx_hash <$> slice history (default 0 (opt_skip options))) ->
  getTransfers options = Ok transfers ->
  NoDup ((fun r => (t_txid r, t_vout r)) <$> transfers).
Proof.
  intros Hh Hnd Hget.
  apply getTransfers_Ok in Hget as (h & myScript & Hh' & _ & ->).
  rewrite Hh in Hh'. injection Hh' as <-.
  rewrite fmap_take. eapply sublist_NoDup; [|apply sublist_take].
  set (items := slice history _) in *.
  set (direction := default "all" _).
  assert ((fun r => (t_txid r, t_vout r)) <$> (items ≫= records_of_item myScript direction)
          = items ≫= (fun item => (fun r => (t_txid r, t_vout r)) <$> records_of_item myScript direction item))
    as ->.
  { induction items as [|item items IH]; [done|].
    rewrite !bind_cons, fmap_app, IH; [done|].
    rewrite fmap_cons in Hnd. by apply NoDup_cons in Hnd as [_ Hnd]. }
  apply NoDup_bind.
  - intros x1 x2 key Hx1 Hx2 Hk1 Hk2.
    apply list_elem_of_fmap in Hk1 as (r1 & -> & Hr1).
    apply list_elem_of_fmap in Hk2 as (r2 & Heq & Hr2).
    apply records_of_item_sound in Hr1 as (_ & _ & _ & _ & Hid1 & _).
    apply records_of_item_sound in Hr2 as (_ & _ & _ & _ & Hid2 & _).
    injection Heq as Heq _.
    apply (NoDup_fmap_eq item_tx_hash items); try done. congruence.
  - intros item _. unfold records_of_item.
    destruct (getTransaction electrum (item_tx_hash item)); [|constructor].
    apply records_from_NoDup.
  - by apply NoDup_fmap_1 in Hnd.
Qed.

End Transfers.

(** * [getTransfers] over the scripthash interface

    The other version of wallet-account-read-only-btc.js talks to the
    Electrum client through [blockchainScripthash_getHistory] and
    [blockchainTransaction_get], keeps no cache, and recognises its own
    outputs by their P2WPKH address.  [getTransaction] stands for the
    fetch followed by [Transaction.fromHex], [getHistory] for the
    history of [this._scriptHash]. *)

Module Scripthash.

Section Transfers.

Variable electrum : ElectrumClient.
Variable lib : BitcoinJs.
Variable address : string.
Variable scriptHash : string.

(** [isAddressMatch({ address: a }, addr)]: an empty [a] is falsy. *)
Definition isAddressMatch (a addr : string) : bool :=
  negb (String.eqb a "") && String.eqb a addr.

(** [extractAddress({ address: a })] *)
Definition extractAddress (a : string) : option string :=
  if String.eqb a "" then None else Some a.

(** [getInputValue]: an input whose parent cannot be fetched, or has no
    such output, is skipped by the [catch]. *)
Definition getInputValue (ins : list TxIn) : Z :=
  foldl
    (fun total input =>
       match getTransaction electrum (hash input) with
       | Ok prevTx =>
           match outs prevTx !! index input with
           | Some o => total + out_value o
           | None => total
           end
       | Throw _ => total
       end)
    0 ins.

(** [isOutgoingTx] *)
Fixpoint isOutgoingTx (ins : list TxIn) : bool :=
  match ins with
  | [] => false
  | input :: rest =>
      match getTransaction electrum (hash input) with
      | Ok prevTx =>
          match outs prevTx !! index input with
          | Some o =>
              match p2wpkh_output_address lib (script o) with
              | Ok addr =>
                  if isAddressMatch addr address then true else isOutgoingTx rest
              | Throw _ => isOutgoingTx rest
              end
          | None => isOutgoingTx rest
          end
      | Throw _ => isOutgoingTx rest
      end
  end.

Section WithOptions.

Variable direction : string.
Variable limit : Z.

(** [for (const [index, out] of tx.outs.entries())]; decoding the
    address of an output is not guarded and may reject the call. *)
Fixpoint outs_loop (item : HistoryItem) (fee : option Z) (outgoing : bool)
    (outs : list TxOut) (index : nat) (transfers : list Transfer)
    : res (list Transfer) :=
  match outs with
  | [] => Ok transfers
  | out :: rest =>
      addr ← p2wpkh_output_address lib (script out);
      let recipient := extractAddress addr in
      let isToSelf := isAddressMatch addr address in
      match classify isToSelf outgoing with
      | None => outs_loop item fee outgoing rest (S index) transfers
      | Some directionType =>
          if negb (emitted direction directionType)
          then outs_loop item fee outgoing rest (S index) transfers
          else if limit <=? Z.of_nat (length transfers) then Ok transfers
          else
            outs_loop item fee outgoing rest (S index)
              (transfers ++
               [mkTransfer (item_tx_hash item) (height item) (out_value out) index
                  directionType recipient fee address])
      end
  end.

(** [for (const item of history.slice(skip))]; on integers
    [+(totalInput - totalOutput).toFixed(8)] is the difference itself. *)
Fixpoint history_loop (items : list HistoryItem) (transfers : list Transfer)
    : res (list Transfer) :=
  match items with
  | [] => Ok transfers
  | item :: rest =>
      if limit <=? Z.of_nat (length transfers) then Ok transfers
      else
        tx ← getTransaction electrum (item_tx_hash item);
        let totalInput := getInputValue (ins tx) in
        let totalOutput := total_output tx in
        let fee := if 0 <? totalInput then Some (totalInput - totalOutput) else None in
        let outgoing := isOutgoingTx (ins tx) in
        transfers ← outs_loop item fee outgoing (outs tx) 0 transfers;
        history_loop rest transfers
  end.

End WithOptions.

Definition getTransfers (options : TransferOptions) : res (list Transfer) :=
  let direction := default "all" (opt_direction options) in
  let limit := default 10 (opt_limit options) in
  let skip := default 0 (opt_skip options) in
  history ← getHistory electrum scriptHash;
  history_loop direction limit (slice history skip) [].

(** [_btcPerKbToSatsPerVbBN] *)
Definition _btcPerKbToSatsPerVbBN (btcPerKb : Q) : Z :=
  Qceiling (btcPerKb * 100000).

(* this._electrumClient.blockchainEstimatefee(blocks), in BTC per kB *)
Variable blockchainEstimatefee : Z -> res Q.

(** [_estimateFee] of this version: the rate comes from
    [blockchainEstimatefee(1)] through [_btcPerKbToSatsPerVbBN], the
    unspent outputs from [blockchainScripthash_listunspent] on
    [this._scriptHash] ([getUnspent] stands for it); the loop is the
    same. *)
Definition _estimateFee (fromAddress to : string) (sats : Z) : res Z :=
  btcPerKb ← blockchainEstimatefee 1;
  let feeRate := inject_Z (_btcPerKbToSatsPerVbBN btcPerKb) in
  let feeRate := Math_max feeRate 1 in
  utxos ← getUnspent electrum scriptHash;
  match utxos with
  | None | Some [] => Throw (Error NO_UNSPENT)
  | Some us =>
      fromScript ← toOutputScript lib fromAddress;
      toScript ← toOutputScript lib to;
      '(total, fee) ← _estimateFee_loop lib feeRate fromScript toScript sats us [] 0 0;
      if total <? sats + fee then Throw (Error INSUFFICIENT) else Ok fee
  end.

(** What a record says about the output it was made from. *)
Definition record_of_output (direction : string) (r : Transfer) : Prop :=
  exists tx out addr,
    getTransaction electrum (t_txid r) = Ok tx /\
    outs tx !! t_vout r = Some out /\
    p2wpkh_output_address lib (script out) = Ok addr /\
    classify (isAddressMatch addr address) (isOutgoingTx (ins tx)) = Some (t_direction r) /\
    emitted direction (t_direction r) = true /\
    t_value r = out_value out /\
    t_fee r =
      (if 0 <? getInputValue (ins tx)
       then Some (getInputValue (ins tx) - total_output tx) else None).

(** ** Properties *)

Lemma outs_loop_records direction limit item tx :
  getTransaction electrum (item_tx_hash item) = Ok tx ->
  forall outs0 index transfers transfers',
    drop index (outs tx) = outs0 ->
    outs_loop direction limit item
      (if 0 <? getInputValue (ins tx)
       then Some (getInputValue (ins tx) - total_output tx) else None)
      (isOutgoingTx (ins tx)) outs0 index transfers = Ok transfers' ->
    Forall (record_of_output direction) transfers ->
    Forall (record_of_output direction) transfers'.
Proof.
  intros Htx. induction outs0 as [|out rest IH];
    intros index transfers transfers' Hdrop H Hall; simpl in H.
  - by injection H as <-.
  - assert (outs tx !! index = Some out) as Hlook.
    { pose proof (lookup_drop (outs tx) index 0) as Hl.
      rewrite Hdrop, Nat.add_0_r in Hl. by rewrite <- Hl. }
    assert (drop (S index) (outs tx) = rest) as Hrest.
    { rewrite (drop_S _ _ _ Hlook) in Hdrop. by injection Hdrop. }
    apply bind_Ok in H as (addr & Haddr & H).
    destruct (classify _ _) as [d|] eqn:Hc; [|by eapply IH].
    destruct (emitted direction d) eqn:He; simpl in H; [|by eapply IH].
    destruct (limit <=? _); [by injection H as <-|].
    eapply IH; [done|exact H|].
    apply Forall_app. split; [done|]. apply Forall_singleton.
    exists tx, out, addr. simpl. by rewrite Htx.
Qed.

Lemma history_loop_records direction limit items :
  forall transfers transfers',
    history_loop direction limit items transfers = Ok transfers' ->
    Forall (record_of_output direction) transfers ->
    Forall (record_of_output direction) transfers'.
Proof.
  induction items as [|item rest IH]; intros transfers transfers' H Hall; simpl in H.
  - by injection H as <-.
  - destruct (limit <=? _); [by injection H as <-|].
    apply bind_Ok in H as (tx & Htx & H).
    apply bind_Ok in H as (ts & Houts & H).
    eapply IH; [exact H|].
    eapply outs_loop_records; [exact Htx|reflexivity|exact Houts|exact Hall].
Qed.

(** X17.  The records of this version obey the same rule as those of
    the cached version: each is [incoming] or [outgoing], and it is
    [incoming] exactly when the output at its [vout] decodes to the
    account's address. *)
Lemma scripthash_transfer_direction options transfers r :
  getTransfers options = Ok transfers ->
  r ∈ transfers ->
  exists tx out addr,
    getTransaction electrum (t_txid r) = Ok tx /\
    outs tx !! t_vout r = Some out /\
    p2wpkh_output_address lib (script out) = Ok addr /\
    (t_direction r = incoming \/ t_direction r = outgoing) /\
    (isAddressMatch addr address = true <-> t_direction r = incoming).
Proof.
  unfold getTransfers. intros H Hr.
  apply bind_Ok in H as (history & _ & H).
  apply history_loop_records in H; [|constructor].
  rewrite Forall_forall in H. apply H in Hr as (tx & out & addr & Htx & Hlook & Haddr & Hc & He & _).
  exists tx, out, addr. repeat split; try done.
  - destruct (classify_emitted _ _ _ _ Hc He) as [(-> & _)|(-> & _)]; auto.
  - intros Hm. destruct (classify_emitted _ _ _ _ Hc He) as [(-> & _)|(_ & Hf & _)];
      [done|congruence].
  - intros Hd. destruct (classify_emitted _ _ _ _ Hc He) as [(_ & Ht & _)|(Ho & _)];
      [done|congruence].
Qed.

(** The fee of a record, in this version too, comes from the parents
    that could be fetched. *)
Lemma scripthash_transfer_fee options transfers r :
  getTransfers options = Ok transfers ->
  r ∈ transfers ->
  exists tx,
    getTransaction electrum (t_txid r) = Ok tx /\
    t_fee r =
      (if 0 <? getInputValue (ins tx)
       then Some (getInputValue (ins tx) - total_output tx) else None).
Proof.
  unfold getTransfers. intros H Hr.
  apply bind_Ok in H as (history & _ & H).
  apply history_loop_records in H; [|constructor].
  rewrite Forall_forall in H. apply H in Hr as (tx & out & addr & Htx & _ & _ & _ & _ & _ & Hfee).
  by exists tx.
Qed.

Lemma outs_loop_length direction limit item fee outgoing outs0 :
  forall index transfers transfers',
    outs_loop direction limit item fee outgoing outs0 index transfers = Ok transfers' ->
    (length transfers' <= max (Z.to_nat limit) (length transfers))%nat.
Proof.
  induction outs0 as [|out rest IH]; intros index transfers transfers' H; simpl in H.
  - injection H as <-. lia.
  - apply bind_Ok in H as (addr & _ & H).
    destruct (classify _ _) as [d|]; [|by eapply IH].
    destruct (emitted direction d); simpl in H; [|by eapply IH].
    destruct (limit <=? Z.of_nat (length transfers)) eqn:Hlim.
    + injection H as <-. lia.
    + apply Z.leb_gt in Hlim. apply IH in H. rewrite length_app in H. simpl in H. lia.
Qed.

Lemma history_loop_length direction limit items :
  forall transfers transfers',
    history_loop direction limit items transfers = Ok transfers' ->
    (length transfers' <= max (Z.to_nat limit) (length transfers))%nat.
Proof.
  induction items as [|item rest IH]; intros transfers transfers' H; simpl in H.
  - injection H as <-. lia.
  - destruct (limit <=? _); [injection H as <-; lia|].
    apply bind_Ok in H as (tx & _ & H).
    apply bind_Ok in H as (ts & Houts & H).
    apply IH in H. apply outs_loop_length in Houts. lia.
Qed.

(** X18.  Pagination in this version: never more than [limit] records,
    nothing for [limit = 0], nothing when [skip] reaches the length of
    the history. *)
Lemma scripthash_pagination options history :
  getHistory electrum scriptHash = Ok history ->
  let limit := default 10 (opt_limit options) in
  let skip := default 0 (opt_skip options) in
  (forall transfers, getTransfers options = Ok transfers ->
     0 <= limit -> Z.of_nat (length transfers) <= limit) /\
  (limit = 0 -> getTransfers options = Ok []) /\
  (Z.of_nat (length history) <= skip -> getTransfers options = Ok []).
Proof.
  intros Hh limit skip. unfold getTransfers. rewrite Hh. cbn [mbind res_bind].
  fold limit skip. repeat split.
  - intros transfers H Hlimit. apply history_loop_length in H. simpl in H. lia.
  - intros ->. destruct (slice history skip); reflexivity.
  - intros Hskip. rewrite slice_beyond by done. reflexivity.
Qed.

(** ** What a call that succeeds has gone through *)

Lemma outs_loop_grows direction limit item fee outgoing outs0 :
  forall index transfers transfers',
    outs_loop direction limit item fee outgoing outs0 index transfers = Ok transfers' ->
    (length transfers <= length transfers')%nat.
Proof.
  induction outs0 as [|out rest IH]; intros index transfers transfers' H; simpl in H.
  - by injection H as <-.
  - apply bind_Ok in H as (addr & _ & H).
    destruct (classify _ _) as [d|]; [|by eapply IH].
    destruct (emitted direction d); simpl in H; [|by eapply IH].
    destruct (limit <=? _); [by injection H as <-|].
    apply IH in H. rewrite length_app in H. simpl in H. lia.
Qed.

Lemma history_loop_grows direction limit items :
  forall transfers transfers',
    history_loop direction limit items transfers = Ok transfers' ->
    (length transfers <= length transfers')%nat.
Proof.
  induction items as [|item rest IH]; intros transfers transfers' H; simpl in H.
  - by injection H as <-.
  - destruct (limit <=? _); [by injection H as <-|].
    apply bind_Ok in H as (tx & _ & H).
    apply bind_Ok in H as (ts & Houts & H).
    apply IH in H. apply outs_loop_grows in Houts. lia.
Qed.

(** A pass over the outputs that ends below the limit has decoded the
    address of every output. *)
Lemma outs_loop_decoded direction limit item fee outgoing outs0 :
  forall index transfers transfers',
    outs_loop direction limit item fee outgoing outs0 index transfers = Ok transfers' ->
    Z.of_nat (length transfers') < limit ->
    Forall (fun out => is_ok (p2wpkh_output_address lib (script out)) = true) outs0.
Proof.
  induction outs0 as [|out rest IH]; intros index transfers transfers' H Hlt; simpl in H.
  - constructor.
  - apply bind_Ok in H as (addr & Haddr & H).
    constructor; [by rewrite Haddr|].
    destruct (classify _ _) as [d|]; [|by eapply IH].
    destruct (emitted direction d); simpl in H; [|by eapply IH].
    destruct (limit <=? Z.of_nat (length transfers)) eqn:Hlim; [|by eapply IH].
    injection H as <-. apply Z.leb_le in Hlim. lia.
Qed.

(** X19.  This version guards neither the request for a transaction of
    the history nor the decoding of its outputs.  A call that succeeds
    with fewer than [limit] records has therefore fetched the
    transaction of every history entry it was asked to read, and every
    output of these transactions is a P2WPKH output. *)
Theorem scripthash_success_below_limit options history transfers :
  getHistory electrum scriptHash = Ok history ->
  getTransfers options = Ok transfers ->
  Z.of_nat (length transfers) < default 10 (opt_limit options) ->
  forall item, item ∈ slice history (default 0 (opt_skip options)) ->
    exists tx,
      getTransaction electrum (item_tx_hash item) = Ok tx /\
      forall out, out ∈ outs tx ->
        is_ok (p2wpkh_output_address lib (script out)) = true.
Proof.
  intros Hh Hget Hlt. unfold getTransfers in Hget. rewrite Hh in Hget.
  cbn [mbind res_bind] in Hget.
  set (limit := default 10 (opt_limit options)) in *.
  set (direction := default "all" (opt_direction options)) in *.
  generalize dependent (@nil Transfer).
  induction (slice history (default 0 (opt_skip options))) as [|item0 rest IH];
    intros transfers0 Hget item Hitem.
  - by apply elem_of_nil in Hitem.
  - simpl in Hget.
    destruct (limit <=? Z.of_nat (length transfers0)) eqn:Hlim.
    { injection Hget as <-. apply Z.leb_le in Hlim. lia. }
    apply bind_Ok in Hget as (tx & Htx & Hget).
    apply bind_Ok in Hget as (ts & Houts & Hget).
    apply elem_of_cons in Hitem as [->|Hitem]; [|by eapply IH].
    exists tx. split; [done|]. apply Forall_forall.
    eapply outs_loop_decoded; [exact Houts|].
    apply history_loop_grows in Hget. lia.
Qed.

(** The input total of this version is the sum over the previous
    outputs that could be fetched. *)
Lemma getInputValue_spec ins :
  getInputValue ins = sum_resolved (map (fetch_prevOut electrum) ins).
Proof.
  unfold getInputValue.
  assert (forall total,
    foldl
      (fun total input =>
         match getTransaction electrum (hash input) with
         | Ok prevTx =>
             match outs prevTx !! index input with
             | Some o => total + out_value o
             | None => total
             end
         | Throw _ => total
         end)
      total ins
    = total + sum_resolved (map (fetch_prevOut electrum) ins)) as Hgen.
  { induction ins as [|input rest IH]; intros total; simpl; [lia|].
    rewrite IH. unfold fetch_prevOut at 2.
    destruct (getTransaction electrum (hash input)) as [prevTx|]; [|done].
    destruct (outs prevTx !! index input); lia. }
  rewrite Hgen. lia.
Qed.

(** An estimate of 0.00001 BTC per kB or less, among them the -1 of a
    server that has no estimate, becomes the rate 1. *)
Lemma rate_floor (btcPerKb : Q) :
  (btcPerKb * 100000 <= 1)%Q ->
  Math_max (inject_Z (_btcPerKbToSatsPerVbBN btcPerKb)) 1 = 1%Q.
Proof.
  intros Hle. unfold _btcPerKbToSatsPerVbBN, Math_max.
  apply Qceiling_resp_le in Hle. change (Qceiling 1) with 1 in Hle.
  destruct (Qlt_le_dec _ 1) as [Hlt|Hge]; [done|].
  rewrite <- (Zle_Qle 1) in Hge.
  by replace (Qceiling (btcPerKb * 100000)) with 1 by lia.
Qed.

End Transfers.

(** X20.  When the server has no better estimate than 0.00001 BTC per
    kB, in particular when it answers -1 for want of an estimate, this
    version quotes at 1 sat per virtual byte: two servers that differ
    only in such estimates give the same quote. *)
Theorem scripthash_estimate_floor electrum lib scriptHash
    (estimate1 estimate2 : Z -> res Q) (b1 b2 : Q) fromAddress to sats :
  estimate1 1 = Ok b1 ->
  estimate2 1 = Ok b2 ->
  (b1 * 100000 <= 1)%Q ->
  (b2 * 100000 <= 1)%Q ->
  _estimateFee electrum lib scriptHash estimate1 fromAddress to sats =
  _estimateFee electrum lib scriptHash estimate2 fromAddress to sats.
Proof.
  intros H1 H2 Hb1 Hb2. unfold _estimateFee. rewrite H1, H2.
  cbn [mbind res_bind]. by rewrite !rate_floor.
Qed.

End Scripthash.

(** * The two versions of [getTransfers] side by side *)

Section Versions.

Variable electrum : ElectrumClient.
Variable lib : BitcoinJs.
Variable address scriptHash : string.

(** X21.  The two versions charge a transaction the same fee: a record
    of the version with the cache and a record of the version over the
    scripthash interface that name the same transaction carry the same
    fee. *)
Theorem fee_agrees_between_versions options options' transfers transfers' r r' :
  getTransfers electrum lib address options = Ok transfers ->
  r ∈ transfers ->
  Scripthash.getTransfers electrum lib address scriptHash options' = Ok transfers' ->
  r' ∈ transfers' ->
  t_txid r = t_txid r' ->
  t_fee r = t_fee r'.
Proof.
  intros H Hr H' Hr' Hid.
  destruct (getTransfers_elem _ _ _ _ _ _ H Hr) as (history & myScript & item & _ & _ & _ & Hrec).
  apply records_of_item_elem in Hrec as (tx & out & _ & Hg & _ & _ & _ & _ & Hfee).
  destruct (Scripthash.scripthash_transfer_fee _ _ _ _ _ _ _ H' Hr') as (tx' & Hg' & Hfee').
  rewrite Hid, Hg' in Hg. injection Hg as ->.
  by rewrite Hfee, Hfee', Scripthash.getInputValue_spec.
Qed.

Section Decoding.

Variable myScript : string.

(* the address of the account is the P2WPKH address of [myScript], and
   of no other script *)
Hypothesis own_script : p2wpkh_output_address lib myScript = Ok address.
Hypothesis own_script_only :
  forall script, p2wpkh_output_address lib script = Ok address -> script = myScript.
(* a decoded address is not the empty string *)
Hypothesis address_not_empty :
  forall script a, p2wpkh_output_address lib script = Ok a -> a <> "".
(* [address.fromOutputScript] decodes a P2WPKH output as [payments.p2wpkh] does *)
Hypothesis fromOutputScript_p2wpkh :
  forall script a,
    p2wpkh_output_address lib script = Ok a -> fromOutputScript lib script = Ok a.

Lemma isAddressMatch_script script a :
  p2wpkh_output_address lib script = Ok a ->
  Scripthash.isAddressMatch a address = String.eqb script myScript.
Proof.
  intros Ha. unfold Scripthash.isAddressMatch.
  pose proof (address_not_empty _ _ Ha) as Hne.
  destruct (String.eqb_spec a ""); [done|]. simpl.
  destruct (String.eqb_spec a address) as [->|Hna],
           (String.eqb_spec script myScript) as [->|Hns]; try done.
  - by apply own_script_only in Ha.
  - rewrite own_script in Ha. by injection Ha.
Qed.

Lemma undecoded_is_foreign script e :
  p2wpkh_output_address lib script = Throw e -> String.eqb script myScript = false.
Proof.
  intros He. destruct (String.eqb_spec script myScript) as [->|]; [|done].
  by rewrite own_script in He.
Qed.

Lemma isOutgoingTx_spec ins :
  Scripthash.isOutgoingTx electrum lib address ins =
  pays_self myScript (map (fetch_prevOut electrum) ins).
Proof.
  induction ins as [|input rest IH]; simpl; [done|].
  unfold fetch_prevOut at 1.
  destruct (getTransaction electrum (hash input)) as [prevTx|]; [|done].
  destruct (outs prevTx !! index input) as [o|]; [|done].
  destruct (p2wpkh_output_address lib (script o)) as [a|e] eqn:Ha.
  - rewrite (isAddressMatch_script _ _ Ha).
    by destruct (String.eqb (script o) myScript).
  - by rewrite (undecoded_is_foreign _ _ Ha).
Qed.

Lemma outs_loop_agree direction limit item fee outgoing outs0 :
  forall index transfers transfers',
    Scripthash.outs_loop lib address direction limit item fee outgoing outs0 index transfers
      = Ok transfers' ->
    outs_loop lib address myScript direction limit item fee outgoing outs0 index transfers
      = transfers'.
Proof.
  induction outs0 as [|out rest IH]; intros index transfers transfers' H; simpl in H |- *.
  - by injection H.
  - apply bind_Ok in H as (a & Ha & H).
    rewrite (isAddressMatch_script _ _ Ha) in H.
    destruct (classify _ outgoing) as [d|]; [|by apply IH].
    destruct (emitted direction d); simpl in H |- *; [|by apply IH].
    destruct (limit <=? Z.of_nat (length transfers)); [by injection H|].
    apply IH. unfold recipient_of, Scripthash.extractAddress in *.
    rewrite (fromOutputScript_p2wpkh _ _ Ha).
    pose proof (address_not_empty _ _ Ha) as Hne.
    by destruct (String.eqb_spec a "").
Qed.

Lemma history_loop_agree direction limit items :
  forall txCache transfers transfers',
    cache_ok electrum txCache ->
    Scripthash.history_loop electrum lib address direction limit items transfers
      = Ok transfers' ->
    history_loop electrum lib address myScript direction limit items txCache transfers
      = transfers'.
Proof.
  induction items as [|item rest IH]; intros txCache transfers transfers' Hok H;
    simpl in H |- *.
  - by injection H.
  - destruct (limit <=? Z.of_nat (length transfers)); [by injection H|].
    apply bind_Ok in H as (tx & Htx & H).
    apply bind_Ok in H as (ts & Houts & H).
    destruct (getTx_spec electrum txCache (item_tx_hash item) Hok) as [Hfst Hok1].
    destruct (getTx electrum txCache (item_tx_hash item)) as [fetched txCache1].
    simpl in Hfst, Hok1. rewrite Hfst, Htx.
    rewrite (prevOuts_of_spec electrum (ins tx) txCache1 Hok1), scan_prevOuts_spec.
    rewrite Scripthash.getInputValue_spec, isOutgoingTx_spec in Houts.
    rewrite (outs_loop_agree _ _ _ _ _ _ _ _ _ Houts).
    apply IH; [by apply cache_after_ok|done].
Qed.

End Decoding.

(** X22.  The two versions agree wherever the version over the
    scripthash interface answers.  When the address of the account and
    the script [myScript] of its address decode into one another, the
    outputs that decode as P2WPKH decode alike through
    [fromOutputScript], and both versions read the same history, every
    result of that version is also the result of the version with the
    cache. *)
Theorem versions_agree myScript options transfers :
  toOutputScript lib address = Ok myScript ->
  p2wpkh_output_address lib myScript = Ok address ->
  (forall script, p2wpkh_output_address lib script = Ok address -> script = myScript) ->
  (forall script a, p2wpkh_output_address lib script = Ok a -> a <> "") ->
  (forall script a,
     p2wpkh_output_address lib script = Ok a -> fromOutputScript lib script = Ok a) ->
  getHistory electrum address = getHistory electrum scriptHash ->
  Scripthash.getTransfers electrum lib address scriptHash options = Ok transfers ->
  getTransfers electrum lib address options = Ok transfers.
Proof.
  intros Hs Hown Honly Hne Hfrom Hh H.
  unfold Scripthash.getTransfers in H. unfold getTransfers. rewrite Hh, Hs.
  apply bind_Ok in H as (history & -> & H). cbn [mbind res_bind]. f_equal.
  eapply history_loop_agree; first [done | apply cache_ok_empty].
Qed.

End Versions.

(** * The account object: keys, signatures and disposal

    The account keeps its key material in byte buffers (Uint8Array and
    Buffer objects).  Two fields may refer to the same buffer, and
    [sodium_memzero] overwrites a buffer in place, so buffers live in a
    heap and the fields hold references into it. *)

Definition bytes : Type := list byte.

(** The heap of buffers; a reference is an index. *)
Definition Heap : Type := list bytes.

Definition alloc (h : Heap) (content : bytes) : nat * Heap :=
  (length h, h ++ [content]).

(** What the account needs from noble hashes, bip32, the ECC library and
    bitcoinjs-lib. *)
Record CryptoLib : Type := mkCryptoLib {
  (* hmac(sha512, key, data): 64 bytes *)
  hmac_sha512 : bytes -> bytes -> bytes;
  (* crypto.sha256 *)
  sha256 : bytes -> bytes;
  (* ecc.isPrivate, checked by bip32.fromPrivateKey *)
  isPrivate : bytes -> bool;
  (* the compressed public key of a private key *)
  pointFromScalar : bytes -> bytes;
  (* the indices of a BIP-32 path string; None when the syntax is wrong *)
  parsePath : string -> option (list N);
  (* one private child derivation on (key, chain code) *)
  CKDpriv : bytes * bytes -> N -> option (bytes * bytes);
  (* node.sign(hash) for the node's private key *)
  ecdsa_sign : bytes -> bytes -> bytes;
  (* node.verify(hash, signature) for the node's public key; throws on a
     malformed signature *)
  ecdsa_verify : bytes -> bytes -> bytes -> res bool;
  (* payments.p2wpkh({ pubkey, network }).address *)
  p2wpkh_address : bytes -> string;
  (* Buffer#toString('base64') and Buffer.from(s, 'base64') *)
  base64_encode : bytes -> string;
  base64_decode : string -> bytes
}.

(** A bip32 node: its private key [__D], its chain code and its public
    key [__Q], each in a buffer of its own. *)
Record Bip32Node : Type := mkBip32Node {
  __D : nat;
  chainCode : nat;
  __Q : nat
}.

Record KeyPair : Type := mkKeyPair {
  publicKey : nat;
  privateKey : nat
}.

(** The fields of a [WalletAccountBtc]; [None] is [null]. *)
Record WalletAccountBtc : Type := mkWalletAccountBtc {
  _electrumClient_connected : bool;
  _masterKeyAndChainCodeBuffer : option nat;
  _privateKeyBuffer : option nat;
  _chainCodeBuffer : option nat;
  _bip32 : option Bip32Node;
  _path : string;
  _address : string;
  _keyPair : KeyPair
}.

Record State : Type := mkState {
  heap : Heap;
  this : WalletAccountBtc
}.

Definition BIP_84_BTC_DERIVATION_PATH_PREFIX : string := "m/84'/0'".

(** [Buffer.from(message)] *)
Definition utf8 (message : string) : bytes := String.list_byte_of_string message.

Definition zeros (n : nat) : bytes := replicate n x00.

(** A JavaScript number, as far as [index] needs it: an integer, or
    [NaN]. *)
Inductive JsNumber : Type := Num (n : Z) | NaN.

(** [s.split('/')], for any separator character. *)
Fixpoint split_on (sep : Ascii.ascii) (s : string) : list string :=
  match s with
  | EmptyString => [""]
  | String c rest =>
      if Ascii.eqb c sep then "" :: split_on sep rest
      else
        match split_on sep rest with
        | [] => [String c ""]
        | segment :: segments => String c segment :: segments
        end
  end.

(* the characters [/] and ['] *)
Definition slash : Ascii.ascii := Ascii.ascii_of_nat 47.
Definition apostrophe : Ascii.ascii := Ascii.ascii_of_nat 39.

Definition is_digit (c : Ascii.ascii) : bool :=
  (48 <=? Ascii.nat_of_ascii c)%nat && (Ascii.nat_of_ascii c <=? 57)%nat.

Fixpoint all_digits (s : string) : bool :=
  match s with
  | EmptyString => true
  | String c rest => is_digit c && all_digits rest
  end.

Fixpoint digits_value (s : string) (acc : Z) : Z :=
  match s with
  | EmptyString => acc
  | String c rest => digits_value rest (10 * acc + Z.of_nat (Ascii.nat_of_ascii c - 48))
  end.

Fixpoint contains (c : Ascii.ascii) (s : string) : bool :=
  match s with
  | EmptyString => false
  | String c' rest => Ascii.eqb c' c || contains c rest
  end.

(** Unary plus on a string, [+s], where it is plain: a string of decimal
    digits denotes its number (exactly up to 2^53), the empty string
    denotes 0, and a string with an apostrophe denotes no number.  The
    other strings (signs, blanks, fractions, exponents, other bases) are
    left out: [None]. *)
Definition to_number (s : string) : option JsNumber :=
  if all_digits s then
    let n := digits_value s 0 in
    if n <=? 2 ^ 53 then Some (Num n) else None
  else if contains apostrophe s then Some NaN
  else None.

Section Account.

Variable crypto : CryptoLib.

(** [node.derivePath(path)] on the key and chain code of the node. *)
Fixpoint derive_all (node : bytes * bytes) (indices : list N) : option (bytes * bytes) :=
  match indices with
  | [] => Some node
  | i :: rest =>
      match CKDpriv crypto node i with
      | Some child => derive_all child rest
      | None => None
      end
  end.

(** The constructor.  The buffers it creates, in order: the HMAC
    output, its two slices (copies), the copies handed to
    [bip32.fromPrivateKey], the public key of the master node (computed
    when the node is first derived from or asked for it), and the
    buffers of the derived node [wallet]. *)
Definition constructor (seedBuffer : bytes) (path : string) : res State :=
  let I := hmac_sha512 crypto (utf8 "Bitcoin seed") seedBuffer in
  let '(masterKeyAndChainCodeBuffer, h) := alloc [] I in
  let '(privateKeyBuffer, h) := alloc h (take 32 I) in
  let '(chainCodeBuffer, h) := alloc h (drop 32 I) in
  if isPrivate crypto (take 32 I) then
    let '(masterD, h) := alloc h (take 32 I) in
    let '(masterChainCode, h) := alloc h (drop 32 I) in
    let path := BIP_84_BTC_DERIVATION_PATH_PREFIX +:+ "/" +:+ path in
    match parsePath crypto path with
    | None => Throw (LibraryError "Expected BIP32Path")
    | Some indices =>
        match derive_all (take 32 I, drop 32 I) indices with
        | None => Throw (LibraryError "derivePath")
        | Some (childKey, childChainCode) =>
            let '(masterQ, h) := alloc h (pointFromScalar crypto (take 32 I)) in
            let master := mkBip32Node masterD masterChainCode masterQ in
            let '(wallet, h) :=
              match indices with
              | [] => (master, h)
              | _ =>
                  let '(childD, h) := alloc h childKey in
                  let '(childCC, h) := alloc h childChainCode in
                  let '(childQ, h) := alloc h (pointFromScalar crypto childKey) in
                  (mkBip32Node childD childCC childQ, h)
              end in
            match h !! __Q wallet with
            | None => Throw TypeError
            | Some walletPublicKey =>
                Ok (mkState h
                      (mkWalletAccountBtc true
                         (Some masterKeyAndChainCodeBuffer)
                         (Some privateKeyBuffer)
                         (Some chainCodeBuffer)
                         (Some master)
                         path
                         (p2wpkh_address crypto walletPublicKey)
                         (mkKeyPair (__Q wallet) privateKeyBuffer)))
            end
        end
    end
  else Throw TypeError.

(** [get index ()]: [+this._path.split('/').pop()]; [pop()] on an empty
    array would give [undefined], and [+undefined] is [NaN]. *)
Definition get_index (st : State) : option JsNumber :=
  match last (split_on slash (_path (this st))) with
  | Some component => to_number component
  | None => Some NaN
  end.

Definition path (st : State) : string := _path (this st).

Definition keyPair (st : State) : KeyPair := _keyPair (this st).

Definition getAddress (st : State) : res string := Ok (_address (this st)).

(** [this._bip32.sign(messageHash).toString('base64')] *)
Definition sign (st : State) (message : string) : res string :=
  let messageHash := sha256 crypto (utf8 message) in
  match _bip32 (this st) with
  | None => Throw TypeError
  | Some node =>
      match heap st !! __D node with
      | None => Throw TypeError
      | Some d => Ok (base64_encode crypto (ecdsa_sign crypto d messageHash))
      end
  end.

(** [this._bip32.verify(messageHash, signatureBuffer)] *)
Definition verify (st : State) (message signature : string) : res bool :=
  let messageHash := sha256 crypto (utf8 message) in
  let signatureBuffer := base64_decode crypto signature in
  match _bip32 (this st) with
  | None => Throw TypeError
  | Some node =>
      match heap st !! __Q node with
      | None => Throw TypeError
      | Some q => ecdsa_verify crypto q messageHash signatureBuffer
      end
  end.




(** Statements that work on the heap and may throw; the heap a
    statement leaves behind is kept also when it throws. *)
Definition Stmt : Type := Heap -> res unit * Heap.

Definition seq (s1 s2 : Stmt) : Stmt := fun h =>
  match s1 h with
  | (Ok _, h') => s2 h'
  | (Throw e, h') => (Throw e, h')
  end.

Definition skip : Stmt := fun h => (Ok tt, h).

(** A block of statements, run in order. *)
Definition block (stmts : list Stmt) : Stmt := foldr seq skip stmts.

(** The assertion of sodium on its argument: the error
    [sodium_memzero] raises when it is handed something that is not a
    typed array, [null] for one. *)
Definition NOT_A_TYPED_ARRAY : error := LibraryError "buf must be a typed array".

(** [sodium_memzero(buffer)]: every byte of the buffer becomes 0; the
    library refuses an argument that is not a buffer. *)
Definition sodium_memzero (buffer : option nat) : Stmt := fun h =>
  match buffer with
  | None => (Throw NOT_A_TYPED_ARRAY, h)
  | Some l =>
      match h !! l with
      | None => (Throw NOT_A_TYPED_ARRAY, h)
      | Some content => (Ok tt, <[l := zeros (length content)]> h)
      end
  end.

(** [sodium_memzero(this._bip32.<field>)]: reading a field of [null]
    throws the TypeError of the language before the library is
    called. *)
Definition memzero_node_field (node : option Bip32Node) (field : Bip32Node -> nat) : Stmt :=
  match node with
  | None => fun h => (Throw TypeError, h)
  | Some node => sodium_memzero (Some (field node))
  end.

(** [dispose()]: the six [sodium_memzero] calls, then the four
    assignments of [null], then the disconnection. *)
Definition dispose (st : State) : res unit * State :=
  let a := this st in
  let wipe :=
    block
      [ sodium_memzero (_privateKeyBuffer a);
        sodium_memzero (_chainCodeBuffer a);
        sodium_memzero (_masterKeyAndChainCodeBuffer a);
        sodium_memzero (Some (privateKey (_keyPair a)));
        memzero_node_field (_bip32 a) __Q;
        memzero_node_field (_bip32 a) __D ] in
  match wipe (heap st) with
  | (Throw e, h) => (Throw e, mkState h a)
  | (Ok _, h) =>
      (Ok tt,
       mkState h
         (mkWalletAccountBtc false None None None None
            (_path a) (_address a) (_keyPair a)))
  end.

Definition master_key (seedBuffer : bytes) : bytes :=
  take 32 (hmac_sha512 crypto (utf8 "Bitcoin seed") seedBuffer).

Definition master_chain_code (seedBuffer : bytes) : bytes :=
  drop 32 (hmac_sha512 crypto (utf8 "Bitcoin seed") seedBuffer).

Definition full_path (path : string) : string :=
  BIP_84_BTC_DERIVATION_PATH_PREFIX +:+ "/" +:+ path.

(** The buffer at [l] held [content] before and holds as many zero
    bytes after. *)
Definition wiped (before after : State) (l : nat) : Prop :=
  exists content,
    heap before !! l = Some content /\
    heap after !! l = Some (zeros (length content)).

(** ** Properties of the account *)

(** The account a successful constructor call leaves behind. *)
Lemma constructor_Ok seedBuffer path st :
  constructor seedBuffer path = Ok st ->
  exists indices childKey childChainCode,
    isPrivate crypto (master_key seedBuffer) = true /\
    parsePath crypto (full_path path) = Some indices /\
    derive_all (master_key seedBuffer, master_chain_code seedBuffer) indices
      = Some (childKey, childChainCode) /\
    st =
    mkState
      ([ hmac_sha512 crypto (utf8 "Bitcoin seed") seedBuffer;
         master_key seedBuffer; master_chain_code seedBuffer;
         master_key seedBuffer; master_chain_code seedBuffer;
         pointFromScalar crypto (master_key seedBuffer) ] ++
       match indices with
       | [] => []
       | _ => [ childKey; childChainCode; pointFromScalar crypto childKey ]
       end)
      (mkWalletAccountBtc true (Some 0%nat) (Some 1%nat) (Some 2%nat)
         (Some (mkBip32Node 3 4 5))
         (full_path path)
         (p2wpkh_address crypto (pointFromScalar crypto childKey))
         (mkKeyPair (match indices with [] => 5%nat | _ => 8%nat end) 1)).
Proof.
  unfold constructor, master_key, master_chain_code, full_path.
  set (I := hmac_sha512 crypto (utf8 "Bitcoin seed") seedBuffer).
  simpl. destruct (isPrivate crypto (take 32 I)); [|discriminate].
  destruct (parsePath crypto _) as [indices|]; [|discriminate].
  destruct (derive_all _ indices) as [[childKey childChainCode]|] eqn:Hd; [|discriminate].
  destruct indices as [|i rest]; simpl; intros [= <-].
  - simpl in Hd. injection Hd as <- <-.
    exists [], (take 32 I), (drop 32 I). auto.
  - exists (i :: rest), childKey, childChainCode. auto.
Qed.

(** C9.  [dispose()] overwrites six buffers with zeros: the master
    private key, the chain code, the master key with its chain code, the
    private key reachable through [keyPair] (the buffer of the master
    private key again), and the private and the public key of the
    BIP-32 node.  It does not overwrite every secret the account holds:
    the BIP-32 node keeps a copy of the chain code in a buffer of its
    own, which no statement of [dispose()] touches and which holds the
    chain code after [dispose()] as it did before.  The address and the
    path are unchanged, and so is every buffer outside the five that
    were overwritten. *)
Theorem dispose_zeroes_secrets seedBuffer path st :
  constructor seedBuffer path = Ok st ->
  exists st' masterKeyAndChainCode privateKeyBuffer chainCodeBuffer node,
    dispose st = (Ok tt, st') /\
    (* the buffers of the live account and what they hold *)
    (_masterKeyAndChainCodeBuffer (this st) = Some masterKeyAndChainCode /\
     _privateKeyBuffer (this st) = Some privateKeyBuffer /\
     _chainCodeBuffer (this st) = Some chainCodeBuffer /\
     _bip32 (this st) = Some node /\
     privateKey (_keyPair (this st)) = privateKeyBuffer /\
     heap st !! privateKeyBuffer = Some (master_key seedBuffer) /\
     heap st !! chainCodeBuffer = Some (master_chain_code seedBuffer) /\
     heap st !! __D node = Some (master_key seedBuffer) /\
     heap st !! chainCode node = Some (master_chain_code seedBuffer)) /\
    (* the buffers that hold zeros afterwards *)
    (wiped st st' masterKeyAndChainCode /\
     wiped st st' privateKeyBuffer /\
     wiped st st' chainCodeBuffer /\
     wiped st st' (privateKey (_keyPair (this st'))) /\
     wiped st st' (__D node) /\
     wiped st st' (__Q node)) /\
    (* the secret that is not overwritten *)
    ((chainCode node ∉ [masterKeyAndChainCode; privateKeyBuffer; chainCodeBuffer;
                        __D node; __Q node]) /\
     heap st' !! chainCode node = Some (master_chain_code seedBuffer)) /\
    (* what the disposed account still refers to *)
    (_masterKeyAndChainCodeBuffer (this st') = None /\
     _privateKeyBuffer (this st') = None /\
     _chainCodeBuffer (this st') = None /\
     _bip32 (this st') = None /\
     _keyPair (this st') = _keyPair (this st)) /\
    (* the frame *)
    _address (this st') = _address (this st) /\
    _path (this st') = _path (this st) /\
    (forall l,
       l ∉ [masterKeyAndChainCode; privateKeyBuffer; chainCodeBuffer; __D node; __Q node] ->
       heap st' !! l = heap st !! l).
Proof.
  intros H.
  apply constructor_Ok in H as (indices & k & c & _ & _ & _ & ->).
  eexists _, 0%nat, 1%nat, 2%nat, (mkBip32Node 3 4 5).
  split; [reflexivity|]. unfold wiped, zeros. simpl.
  rewrite !length_replicate.
  split; [repeat split|].
  split; [repeat split; eexists; split; reflexivity|].
  split; [split; [|reflexivity]|].
  { intros Hin. repeat (apply elem_of_cons in Hin as [Hin|Hin]; [discriminate Hin|]).
    by apply elem_of_nil in Hin. }
  split; [repeat split|].
  split; [reflexivity|]. split; [reflexivity|].
  intros l Hl.
  assert (l <> 0 /\ l <> 1 /\ l <> 2 /\ l <> 3 /\ l <> 5)%nat as (?&?&?&?&?).
  { repeat split; intros ->; apply Hl; set_solver. }
  destruct l as [|[|[|[|[|[|l]]]]]]; try congruence; reflexivity.
Qed.


(** X23.  A second [dispose()] finds [null] where the first one found
    buffers: its first statement hands [null] to [sodium_memzero], which
    raises the assertion error of the library, and the account stays as
    the first call left it. *)
Lemma dispose_twice_throws seedBuffer path st st' :
  constructor seedBuffer path = Ok st ->
  dispose st = (Ok tt, st') ->
  dispose st' = (Throw (LibraryError "buf must be a typed array"), st').
Proof.
  intros H Hd.
  apply constructor_Ok in H as (indices & k & c & _ & _ & _ & ->).
  injection Hd as <-. reflexivity.
Qed.

(** [sign] reads the private key of the master node. *)
Lemma sign_after_constructor seedBuffer path st message :
  constructor seedBuffer path = Ok st ->
  sign st message =
  Ok (base64_encode crypto
        (ecdsa_sign crypto (master_key seedBuffer) (sha256 crypto (utf8 message)))).
Proof.
  intros H.
  apply constructor_Ok in H as (indices & k & c & _ & _ & _ & ->).
  reflexivity.
Qed.

(** C2.  [sign] signs with the key of [this._bip32], which is the
    master node built from the HMAC output, not the node derived at the
    account's path: the signature is that of the master private key
    over SHA-256 of the message, and every account of the same seed
    returns it, whatever its path. *)
Theorem sign_uses_master_key seedBuffer path st message :
  constructor seedBuffer path = Ok st ->
  sign st message =
    Ok (base64_encode crypto
          (ecdsa_sign crypto (master_key seedBuffer) (sha256 crypto (utf8 message)))) /\
  (forall path' st',
     constructor seedBuffer path' = Ok st' ->
     sign st' message = sign st message).
Proof.
  intros H. split; [by eapply sign_after_constructor|].
  intros path' st' H'.
  by rewrite (sign_after_constructor _ _ _ _ H), (sign_after_constructor _ _ _ _ H').
Qed.

(** [verify] checks against the public key of the same master node, so
    that it accepts what [sign] produced as soon as the ECC library
    accepts its own signatures. *)
Lemma verify_sign seedBuffer path st message signature :
  (forall k h, ecdsa_verify crypto (pointFromScalar crypto k) h (ecdsa_sign crypto k h) = Ok true) ->
  (forall b, base64_decode crypto (base64_encode crypto b) = b) ->
  constructor seedBuffer path = Ok st ->
  sign st message = Ok signature ->
  verify st message signature = Ok true.
Proof.
  intros Hecc Hb64 H Hs.
  rewrite (sign_after_constructor _ _ _ _ H) in Hs. injection Hs as <-.
  apply constructor_Ok in H as (indices & k & c & _ & _ & _ & ->).
  unfold verify. simpl. rewrite Hb64. apply Hecc.
Qed.



(** X24.  [verify] accepts what [sign] returns, as soon as the ECC
    library accepts its own signatures and base64 decoding undoes the
    encoding.  As both work with the master node, the signature of one
    account is accepted by every account of the same seed. *)
Theorem verify_accepts_sign seedBuffer tail tail' st st' message signature :
  (forall k h,
     ecdsa_verify crypto (pointFromScalar crypto k) h (ecdsa_sign crypto k h) = Ok true) ->
  (forall b, base64_decode crypto (base64_encode crypto b) = b) ->
  constructor seedBuffer tail = Ok st ->
  constructor seedBuffer tail' = Ok st' ->
  sign st message = Ok signature ->
  verify st message signature = Ok true /\
  verify st' message signature = Ok true.
Proof.
  intros Hecc Hb64 H H' Hs.
  rewrite (sign_after_constructor _ _ _ _ H) in Hs. injection Hs as <-.
  apply constructor_Ok in H as (indices & k & c & _ & _ & _ & ->).
  apply constructor_Ok in H' as (indices' & k' & c' & _ & _ & _ & ->).
  unfold verify. simpl. rewrite Hb64. split; apply Hecc.
Qed.

(** X25.  The address of an account is the P2WPKH address of the public
    key of its key pair, and its path is the given path behind
    "m/84'/0'/"; [dispose()] changes neither the address nor the
    path. *)
Theorem address_matches_public_key seedBuffer tail st :
  constructor seedBuffer tail = Ok st ->
  path st = "m/84'/0'/" +:+ tail /\
  (exists pk,
     heap st !! publicKey (keyPair st) = Some pk /\
     getAddress st = Ok (p2wpkh_address crypto pk)) /\
  (forall st', dispose st = (Ok tt, st') ->
     getAddress st' = getAddress st /\ path st' = path st).
Proof.
  intros H.
  apply constructor_Ok in H as (indices & k & c & _ & _ & Hd & ->).
  split; [reflexivity|]. split.
  - exists (pointFromScalar crypto k). split; [|reflexivity].
    destruct indices; [|reflexivity].
    simpl in Hd. by injection Hd as <- <-.
  - intros st' Hdis. by injection Hdis as <-.
Qed.

(** X26.  [dispose()] does not overwrite everything the constructor
    computed: the chain code the master node holds, a copy of
    [_chainCodeBuffer], is after [dispose()] as it was before, and so is
    the private key of the node derived at the path of the account,
    from which the constructor took the public key. *)
Theorem dispose_leaves_derived_key seedBuffer tail st st' :
  constructor seedBuffer tail = Ok st ->
  dispose st = (Ok tt, st') ->
  exists indices childKey childChainCode node,
    parsePath crypto (full_path tail) = Some indices /\
    derive_all (master_key seedBuffer, master_chain_code seedBuffer) indices
      = Some (childKey, childChainCode) /\
    _bip32 (this st) = Some node /\
    heap st !! chainCode node = Some (master_chain_code seedBuffer) /\
    heap st' !! chainCode node = Some (master_chain_code seedBuffer) /\
    (indices <> [] ->
     exists l,
       heap st !! l = Some childKey /\
       heap st' !! l = Some childKey).
Proof.
  intros H Hdis.
  apply constructor_Ok in H as (indices & k & c & _ & Hp & Hd & ->).
  injection Hdis as <-.
  exists indices, k, c, (mkBip32Node 3 4 5).
  repeat split; try done.
  intros Hne. exists 6%nat. by destruct indices.
Qed.



(** ** The index of the account *)

Lemma split_on_nonempty sep s : split_on sep s <> [].
Proof.
  destruct s as [|c rest]; simpl; [done|].
  destruct (Ascii.eqb c sep); [done|]. by destruct (split_on sep rest).
Qed.

Lemma split_on_app sep a b :
  split_on sep (a +:+ String sep b) = split_on sep a ++ split_on sep b.
Proof.
  induction a as [|c rest IH]; simpl.
  - by rewrite Ascii.eqb_refl.
  - destruct (Ascii.eqb c sep); [by rewrite IH|].
    rewrite IH. pose proof (split_on_nonempty sep rest).
    by destruct (split_on sep rest).
Qed.

Lemma last_split_on_app sep a b :
  last (split_on sep (a +:+ String sep b)) = last (split_on sep b).
Proof.
  rewrite split_on_app. pose proof (split_on_nonempty sep b) as Hne.
  destruct (split_on sep b) as [|x l] using rev_ind; [done|].
  by rewrite app_assoc, !last_snoc.
Qed.

Lemma split_on_absent sep s : contains sep s = false -> split_on sep s = [s].
Proof.
  induction s as [|c rest IH]; simpl; [done|].
  intros H. apply orb_false_iff in H as [Hc Hrest].
  rewrite Hc, IH; done.
Qed.

Lemma all_digits_no_slash s : all_digits s = true -> contains slash s = false.
Proof.
  induction s as [|c rest IH]; simpl; [done|].
  intros H. apply andb_true_iff in H as [Hc Hrest]. rewrite IH by done.
  rewrite orb_false_r. destruct (Ascii.eqb_spec c slash) as [->|]; [|done].
  discriminate Hc.
Qed.

Lemma contains_app c a b : contains c (a +:+ b) = contains c a || contains c b.
Proof.
  induction a as [|c' rest IH]; simpl; [done|]. by rewrite IH, orb_assoc.
Qed.

Lemma all_digits_hardened component : all_digits (component +:+ "'") = false.
Proof.
  induction component as [|c rest IH]; simpl; [done|]. by rewrite IH, andb_false_r.
Qed.

(** X27.  [index] reads the text behind the last [/] of the path and
    nothing else: for a path that ends in a component of decimal digits
    it is the number they denote, and for a path that ends in a hardened
    component, with its apostrophe, it is [NaN]. *)
Theorem index_is_last_component seedBuffer tail st :
  constructor seedBuffer tail = Ok st ->
  get_index st =
    match last (split_on slash tail) with
    | Some component => to_number component
    | None => Some NaN
    end /\
  (forall front digits,
     tail = front +:+ String slash digits ->
     all_digits digits = true ->
     digits_value digits 0 <= 2 ^ 53 ->
     get_index st = Some (Num (digits_value digits 0))) /\
  (forall front component,
     tail = front +:+ String slash (component +:+ "'") ->
     contains slash component = false ->
     get_index st = Some NaN).
Proof.
  intros H.
  apply constructor_Ok in H as (indices & k & c & _ & _ & _ & ->).
  assert (forall t,
            last (split_on slash (full_path t)) = last (split_on slash t)) as Hlast
    by (intros t; exact (last_split_on_app slash "m/84'/0'" t)).
  unfold get_index. cbn [this _path]. rewrite Hlast.
  split; [done|]. split.
  - intros front digits -> Hdigits Hsafe.
    rewrite last_split_on_app, split_on_absent by (by apply all_digits_no_slash).
    cbn [last]. unfold to_number. rewrite Hdigits.
    apply Z.leb_le in Hsafe. by rewrite Hsafe.
  - intros front component -> Hcomponent.
    rewrite last_split_on_app, split_on_absent
      by (by rewrite contains_app, Hcomponent).
    cbn [last]. unfold to_number.
    by rewrite all_digits_hardened, contains_app, orb_true_r.
Qed.

End Account.

(** * The witness of the provisional transaction

    [_estimateFee] gives every input of its provisional transaction a
    final witness of the size of a real one: a stack of a dummy
    signature of 71 bytes and a dummy public key of 33 bytes,
    serialised by its two local functions [encodeVarInt] and
    [serializeWitness]. *)

(** What a byte of a buffer keeps of a number written into it: its
    value modulo 256. *)
Definition byte_of_Z (n : Z) : byte :=
  default x00 (Byte.of_N (Z.to_N (n mod 256))).

Definition Z_of_byte (b : byte) : Z := Z.of_N (Byte.to_N b).

Definition ERR_OUT_OF_RANGE : error := LibraryError "ERR_OUT_OF_RANGE".

(** [encodeVarInt]: [Buffer.from([n])], or a buffer of 3 bytes filled by
    [b[0] = 0xfd; b.writeUInt16LE(n, 1)], or one of 5 bytes filled by
    [b[0] = 0xfe; b.writeUInt32LE(n, 1)]; [writeUInt32LE] throws on a
    value above 0xffffffff. *)
Definition encodeVarInt (n : Z) : res bytes :=
  if n <? 253 then Ok [byte_of_Z n]
  else if n <=? 65535 then Ok [xfd; byte_of_Z n; byte_of_Z (n / 256)]
  else if n <=? 4294967295 then
    Ok [xfe; byte_of_Z n; byte_of_Z (n / 256); byte_of_Z (n / 65536);
        byte_of_Z (n / 16777216)]
  else Throw ERR_OUT_OF_RANGE.

(** [for (const it of items) parts.push(encodeVarInt(it.length), it)],
    with [parts] as accumulator. *)
Fixpoint serializeWitness_loop (items : list bytes) (parts : list bytes)
    : res (list bytes) :=
  match items with
  | [] => Ok parts
  | it :: rest =>
      len ← encodeVarInt (Z.of_nat (length it));
      serializeWitness_loop rest (parts ++ [len; it])
  end.

(** [serializeWitness]; [Buffer.concat(parts)] is [concat parts]. *)
Definition serializeWitness (items : list bytes) : res bytes :=
  count ← encodeVarInt (Z.of_nat (length items));
  parts ← serializeWitness_loop items [count];
  Ok (concat parts).

(** [Buffer.alloc(71, 1)] and [Buffer.alloc(33, 2)] *)
Definition dummySig : bytes := replicate 71 x01.
Definition dummyPub : bytes := replicate 33 x02.

Definition finalWitness : res bytes := serializeWitness [dummySig; dummyPub].

(** The number of bytes [encodeVarInt] writes. *)
Definition varint_size (n : Z) : Z :=
  if n <? 253 then 1 else if n <=? 65535 then 3 else 5.

(** The size of a serialised stack: the count, then every item behind
    its length. *)
Definition witness_size (items : list bytes) : Z :=
  varint_size (Z.of_nat (length items)) +
  foldr (fun it size => varint_size (Z.of_nat (length it)) + Z.of_nat (length it) + size)
    0 items.

(** The items of a stack, each behind its length. *)
Fixpoint witness_body (items : list bytes) : res bytes :=
  match items with
  | [] => Ok []
  | it :: rest =>
      len ← encodeVarInt (Z.of_nat (length it));
      body ← witness_body rest;
      Ok (len ++ it ++ body)
  end.

(** ** Properties of the serialisation *)

Lemma Z_of_byte_of_Z n : Z_of_byte (byte_of_Z n) = n mod 256.
Proof.
  unfold Z_of_byte, byte_of_Z.
  assert (0 <= n mod 256 < 256) as Hr by (apply Z.mod_pos_bound; lia).
  destruct (Byte.of_N (Z.to_N (n mod 256))) as [b|] eqn:Hb.
  - apply Byte.to_of_N in Hb. simpl. rewrite Hb. lia.
  - apply Byte.of_N_None_iff in Hb. lia.
Qed.

Lemma byte_of_Z_inj a b : byte_of_Z a = byte_of_Z b -> a mod 256 = b mod 256.
Proof. intros H. by rewrite <- !Z_of_byte_of_Z, H. Qed.

Lemma byte_of_Z_is a (b : byte) : byte_of_Z a = b -> a mod 256 = Z_of_byte b.
Proof. intros <-. by rewrite Z_of_byte_of_Z. Qed.

Lemma encodeVarInt_Ok n e :
  encodeVarInt n = Ok e -> n <= 4294967295 /\ Z.of_nat (length e) = varint_size n.
Proof.
  unfold encodeVarInt, varint_size.
  destruct (n <? 253) eqn:H1; [intros [= <-]; apply Z.ltb_lt in H1; split; [lia|done]|].
  destruct (n <=? 65535) eqn:H2; [intros [= <-]; apply Z.leb_le in H2; split; [lia|done]|].
  destruct (n <=? 4294967295) eqn:H3; [|done].
  intros [= <-]. apply Z.leb_le in H3. done.
Qed.

Lemma encodeVarInt_in_range n :
  n <= 4294967295 -> exists e, encodeVarInt n = Ok e.
Proof.
  intros Hn. unfold encodeVarInt.
  destruct (n <? 253); [eauto|]. destruct (n <=? 65535); [eauto|].
  destruct (n <=? 4294967295) eqn:H3; [eauto|]. apply Z.leb_gt in H3. lia.
Qed.

(** No encoding of a number from 0 to 0xffffffff is the beginning of
    another. *)
Lemma encodeVarInt_unique a b ea eb r1 r2 :
  0 <= a -> 0 <= b ->
  encodeVarInt a = Ok ea ->
  encodeVarInt b = Ok eb ->
  ea ++ r1 = eb ++ r2 ->
  a = b /\ r1 = r2.
Proof.
  intros Ha Hb Hea Heb Heq.
  unfold encodeVarInt in Hea, Heb.
  destruct (a <? 253) eqn:Ha1; [apply Z.ltb_lt in Ha1|apply Z.ltb_ge in Ha1];
    destruct (b <? 253) eqn:Hb1; [apply Z.ltb_lt in Hb1|apply Z.ltb_ge in Hb1| |];
    try (destruct (a <=? 65535) eqn:Ha2; [apply Z.leb_le in Ha2|apply Z.leb_gt in Ha2]);
    try (destruct (b <=? 65535) eqn:Hb2; [apply Z.leb_le in Hb2|apply Z.leb_gt in Hb2]);
    try (destruct (a <=? 4294967295) eqn:Ha3; [apply Z.leb_le in Ha3|discriminate Hea]);
    try (destruct (b <=? 4294967295) eqn:Hb3; [apply Z.leb_le in Hb3|discriminate Heb]);
    injection Hea as <-; injection Heb as <-; simpl in Heq;
    simplify_eq;
    repeat match goal with
           | H : byte_of_Z _ = byte_of_Z _ |- _ => apply byte_of_Z_inj in H
           | H : byte_of_Z _ = _ |- _ => apply byte_of_Z_is in H; cbn in H
           | H : _ = byte_of_Z _ |- _ => symmetry in H; apply byte_of_Z_is in H; cbn in H
           end;
    first [ by (exfalso; Z.to_euclidean_division_equations; lia)
          | split; [Z.to_euclidean_division_equations; lia|done] ].
Qed.

(** X28.  [encodeVarInt] writes 1, 3 or 5 bytes, and on the numbers from
    0 to 0xffffffff no encoding is the beginning of another: from the
    encoding of a number followed by any bytes, the number and the bytes
    that follow can be told.  Above 0xffffffff it throws. *)
Theorem encodeVarInt_prefix_free a b ea eb r1 r2 :
  0 <= a -> 0 <= b ->
  encodeVarInt a = Ok ea ->
  encodeVarInt b = Ok eb ->
  ea ++ r1 = eb ++ r2 ->
  a = b /\ r1 = r2 /\ a <= 4294967295 /\ Z.of_nat (length ea) = varint_size a.
Proof.
  intros Ha Hb Hea Heb Heq.
  destruct (encodeVarInt_Ok _ _ Hea) as [Hamax Hlen].
  destruct (encodeVarInt_unique _ _ _ _ _ _ Ha Hb Hea Heb Heq) as [Hab Hr].
  done.
Qed.

Lemma serializeWitness_loop_body items : forall parts,
  (ps ← serializeWitness_loop items parts; Ok (concat ps)) =
  (body ← witness_body items; Ok (concat parts ++ body)).
Proof.
  induction items as [|it rest IH]; intros parts; simpl.
  - by rewrite app_nil_r.
  - destruct (encodeVarInt (Z.of_nat (length it))) as [len|e]; [|done].
    cbn [mbind res_bind]. rewrite IH.
    destruct (witness_body rest) as [body|e]; [|done].
    cbn [mbind res_bind]. rewrite concat_app. simpl.
    by rewrite app_nil_r, <- !app_assoc.
Qed.

(** The serialised stack is the count followed by the items, each
    behind its length. *)
Lemma serializeWitness_eq items :
  serializeWitness items =
  (count ← encodeVarInt (Z.of_nat (length items));
   body ← witness_body items;
   Ok (count ++ body)).
Proof.
  unfold serializeWitness.
  destruct (encodeVarInt (Z.of_nat (length items))) as [count|e]; [|done].
  cbn [mbind res_bind].
  pose proof (serializeWitness_loop_body items [count]) as Hloop.
  simpl in Hloop. rewrite app_nil_r in Hloop. exact Hloop.
Qed.

Lemma witness_body_inj : forall items items' body,
  length items = length items' ->
  witness_body items = Ok body ->
  witness_body items' = Ok body ->
  items = items'.
Proof.
  induction items as [|it rest IH]; intros [|it' rest'] body Hlen H H'; try done.
  simpl in H, H'.
  apply bind_Ok in H as (len & Hl & H). apply bind_Ok in H as (b & Hb & H).
  apply bind_Ok in H' as (len' & Hl' & H'). apply bind_Ok in H' as (b' & Hb' & H').
  injection H as <-. injection H' as Heq.
  destruct (encodeVarInt_unique _ _ _ _ _ _ (Nat2Z.is_nonneg _) (Nat2Z.is_nonneg _)
              Hl' Hl Heq) as (Hlen_it & Htail).
  apply Nat2Z.inj in Hlen_it.
  apply app_inj_1 in Htail as [-> ->]; [|done].
  f_equal. eapply IH; [|exact Hb|exact Hb']. simpl in Hlen. lia.
Qed.

(** X29.  [serializeWitness] loses nothing: two stacks that serialise
    to the same bytes are the same stack, item for item. *)
Theorem serializeWitness_injective items items' w :
  serializeWitness items = Ok w ->
  serializeWitness items' = Ok w ->
  items = items'.
Proof.
  rewrite !serializeWitness_eq. intros H H'.
  apply bind_Ok in H as (count & Hc & H). apply bind_Ok in H as (body & Hb & H).
  apply bind_Ok in H' as (count' & Hc' & H'). apply bind_Ok in H' as (body' & Hb' & H').
  injection H as <-. injection H' as Heq.
  destruct (encodeVarInt_unique _ _ _ _ _ _ (Nat2Z.is_nonneg _) (Nat2Z.is_nonneg _)
              Hc' Hc Heq) as (Hlen & ->).
  apply Nat2Z.inj in Hlen. by eapply witness_body_inj.
Qed.

Lemma witness_body_size (items : list bytes) :
  Forall (fun it => Z.of_nat (length it) <= 4294967295) items ->
  exists body,
    witness_body items = Ok body /\
    Z.of_nat (length body) =
    foldr (fun it size => varint_size (Z.of_nat (length it)) + Z.of_nat (length it) + size)
      0 items.
Proof.
  induction 1 as [|it rest Hit _ (body & Hb & Hsize)]; simpl; [by exists []|].
  destruct (encodeVarInt_in_range _ Hit) as (len & Hl).
  rewrite Hl, Hb. cbn [mbind res_bind]. eexists. split; [done|].
  apply encodeVarInt_Ok in Hl as [_ Hl]. rewrite !length_app. lia.
Qed.

(** X30.  [serializeWitness] succeeds on every stack of at most
    0xffffffff items of at most 0xffffffff bytes each, and what it
    returns has the size of the count plus, for each item, the size of
    its length and its own size. *)
Theorem serializeWitness_size (items : list bytes) :
  Z.of_nat (length items) <= 4294967295 ->
  Forall (fun it => Z.of_nat (length it) <= 4294967295) items ->
  exists w,
    serializeWitness items = Ok w /\
    Z.of_nat (length w) = witness_size items.
Proof.
  intros Hcount Hitems. rewrite serializeWitness_eq.
  destruct (encodeVarInt_in_range _ Hcount) as (count & Hc).
  destruct (witness_body_size _ Hitems) as (body & Hb & Hsize).
  rewrite Hc, Hb. cbn [mbind res_bind]. eexists. split; [done|].
  apply encodeVarInt_Ok in Hc as [_ Hc]. unfold witness_size.
  rewrite length_app. lia.
Qed.

(** * Sample environments

    Concrete Electrum answers and stand-ins for the libraries, on which
    the definitions above can be run. *)

(** ** Two unspent outputs

    Two unspent outputs of the account's address, fee estimate 1 sat/vB,
    and the usual size of a P2WPKH transaction
    (11 + 68 per input + 31 per output virtual bytes). *)

Definition sample_unspent : list Unspent :=
  [ mkUnspent "aa" 0 1000; mkUnspent "bb" 1 100000 ].

Definition sample_electrum : ElectrumClient :=
  {| getUnspent := fun _ => Ok (Some sample_unspent);
     getTransaction := fun txid =>
       if String.eqb txid "aa" then
         Ok (mkTransaction [] [mkTxOut "0014own" 1000])
       else if String.eqb txid "bb" then
         Ok (mkTransaction [] [mkTxOut "0014other" 5; mkTxOut "0014own" 100000])
       else Throw (LibraryError "missing transaction");
     getFeeEstimateInSatsPerVb := Ok 1%Q;
     broadcastTransaction := fun _ => Ok "txid";
     getHistory := fun _ => Ok [] |}.

Definition p2wpkh_vsize (n_in n_out : nat) : Z :=
  11 + 68 * Z.of_nat n_in + 31 * Z.of_nat n_out.

(** The library, as far as the builder sees it: every address is
    accepted, signing succeeds, and extraction refuses a transaction
    whose outputs exceed its inputs or whose fee rate reaches 5000
    sat/vB, as [psbt.extractTransaction()] does. *)
Definition sample_lib : BitcoinJs :=
  {| validAddress := fun _ => true;
     signInputHD := fun _ _ _ => Ok "witness";
     checkFees := fun psbt =>
       let paid := sum_values (inputs psbt) - sum_outputs (outputs psbt) in
       let vsize := p2wpkh_vsize (length (inputs psbt)) (length (outputs psbt)) in
       if paid <? 0 then Throw (Error "Outputs are spending more than Inputs")
       else if 5000 <=? paid / vsize then Throw (Error "Warning: You are paying around")
       else Ok tt;
     virtualSize := fun psbt =>
       p2wpkh_vsize (length (inputs psbt)) (length (outputs psbt));
     getId := fun _ => "txid";
     toHex := fun _ => "hex";
     toOutputScript := fun addr => Ok ("0014" ++ addr)%string;
     dummyVirtualSize := fun sel outs =>
       let paid :=
         foldl (fun sum u => sum + value u) 0 sel
         - foldl (fun sum o => sum + out_value o) 0 outs in
       if paid <? 0 then Throw (Error "Outputs are spending more than Inputs")
       else Ok (p2wpkh_vsize (length sel) (length outs));
     fromOutputScript := fun script =>
       if String.prefix "0014" script then Ok (String.substring 4 (String.length script) script)
       else Throw (LibraryError "no matching address");
     p2wpkh_output_address := fun script =>
       if String.prefix "0014" script then Ok (String.substring 4 (String.length script) script)
       else Throw (LibraryError "Output is invalid") |}.

(** The same account when its first unspent output is worth less than
    the amount to send. *)
Definition small_first_electrum : ElectrumClient :=
  {| getUnspent := fun _ => Ok (Some [ mkUnspent "aa" 0 600; mkUnspent "bb" 1 100000 ]);
     getTransaction := getTransaction sample_electrum;
     getFeeEstimateInSatsPerVb := Ok 1%Q;
     broadcastTransaction := fun _ => Ok "txid";
     getHistory := fun _ => Ok [] |}.

Definition sample_collected : list Collected :=
  [ mkCollected (mkUnspent "aa" 0 1000) (mkTxOut "0014own" 1000);
    mkCollected (mkUnspent "bb" 1 100000) (mkTxOut "0014own" 100000) ].

(** ** A history

    A funding transaction that pays the account 1000000 sats, a send of
    10000 sats to a foreign address with change back to the account, an
    unconfirmed transaction one of whose two parents the server does not
    have, and one whose only parent it does not have. *)

Definition sample_history : list HistoryItem :=
  [mkHistoryItem "fund" 101; mkHistoryItem "send" 102;
   mkHistoryItem "partial" 0; mkHistoryItem "orphan" 0].

Definition history_electrum : ElectrumClient :=
  {| getUnspent := fun _ => Ok (Some []);
     getTransaction := fun txid =>
       if String.eqb txid "coinbase" then
         Ok (mkTransaction [] [mkTxOut "0014miner" 5000000000])
       else if String.eqb txid "fund" then
         Ok (mkTransaction [mkTxIn "coinbase" 0]
               [mkTxOut "0014own" 1000000; mkTxOut "0014miner" 4998999000])
       else if String.eqb txid "send" then
         Ok (mkTransaction [mkTxIn "fund" 0]
               [mkTxOut "0014foreign" 10000; mkTxOut "0014own" 989859])
       else if String.eqb txid "partial" then
         Ok (mkTransaction [mkTxIn "fund" 1; mkTxIn "lost" 0]
               [mkTxOut "0014own" 5000000000])
       else if String.eqb txid "orphan" then
         Ok (mkTransaction [mkTxIn "lost" 3] [mkTxOut "0014own" 700])
       else Throw (LibraryError "missing transaction");
     getFeeEstimateInSatsPerVb := Ok 1%Q;
     broadcastTransaction := fun _ => Ok "txid";
     getHistory := fun _ => Ok sample_history |}.

Definition default_options : TransferOptions := mkTransferOptions None None None.

Definition sample_incoming : Transfer :=
  mkTransfer "fund" 101 1000000 0 incoming (Some "own") (Some 1000) "own".

Definition sample_outgoing : Transfer :=
  mkTransfer "send" 102 10000 0 outgoing (Some "foreign") (Some 141) "own".

Definition sample_partial : Transfer :=
  mkTransfer "partial" 0 5000000000 0 incoming (Some "own") (Some (-1001000)) "own".

Definition sample_orphan : Transfer :=
  mkTransfer "orphan" 0 700 0 incoming (Some "own") None "own".

Definition sample_transfers : list Transfer :=
  [sample_incoming; sample_outgoing; sample_partial; sample_orphan].

(** The sentence of the specification on missing parents, as it is
    written: a record of a transaction one of whose parents cannot be
    fetched has no fee. *)
Definition fee_null_when_parent_missing
    (electrum : ElectrumClient) (lib : BitcoinJs) (address : string) : Prop :=
  forall options transfers r tx,
    getTransfers electrum lib address options = Ok transfers ->
    r ∈ transfers ->
    getTransaction electrum (t_txid r) = Ok tx ->
    (exists input, input ∈ ins tx /\ is_ok (getTransaction electrum (hash input)) = false) ->
    t_fee r = None.

(** ** An account

    Stand-ins for the cryptographic functions, good enough to run the
    constructor: they keep the sizes of the real ones and nothing of
    their security. *)

Definition sample_crypto : CryptoLib :=
  {| hmac_sha512 := fun key data => take 64 (key ++ data ++ replicate 64 x00);
     sha256 := fun b => take 32 (b ++ replicate 32 x00);
     isPrivate := fun _ => true;
     pointFromScalar := fun k => x02 :: k;
     parsePath := fun s => Some [84%N; 0%N; N.of_nat (String.length s)];
     CKDpriv := fun node i =>
       Some (default x00 (Byte.of_N (i mod 256)) :: take 31 (snd node), fst node);
     ecdsa_sign := fun k h => k ++ h;
     ecdsa_verify := fun q h sig =>
       Ok (if list_eq_dec (dec := Byte.byte_eq_dec) sig (drop 1 q ++ h) then true else false);
     p2wpkh_address := fun q => "bc1q" +:+ String.string_of_list_byte (drop 1 q);
     base64_encode := String.string_of_list_byte;
     base64_decode := String.list_byte_of_string |}.

Definition sample_seed : bytes := utf8 "seed".

Definition no_account : State :=
  mkState [] (mkWalletAccountBtc false None None None None "" "" (mkKeyPair 0 0)).

(** The account at "0'/0/0". *)
Definition sample_state : State :=
  Eval vm_compute in
    match constructor sample_crypto sample_seed "0'/0/0" with
    | Ok st => st
    | Throw _ => no_account
    end.

(** A second account of the same seed, at "0'/0/10". *)
Definition sample_state' : State :=
  Eval vm_compute in
    match constructor sample_crypto sample_seed "0'/0/10" with
    | Ok st => st
    | Throw _ => no_account
    end.

(** A seed long enough for the stand-in of HMAC-SHA512 to fill the
    chain code with bytes of the seed: neither the master key nor the
    chain code of the account is a run of zeros. *)
Definition long_seed : bytes :=
  utf8 "a seed of more than fifty-two bytes, to fill the chain code as well".

(** The account of [long_seed] at "0'/0/0". *)
Definition long_state : State :=
  Eval vm_compute in
    match constructor sample_crypto long_seed "0'/0/0" with
    | Ok st => st
    | Throw _ => no_account
    end.



(** The buffers with secret content an account refers to: the three
    key buffers, the private key of the key pair, and the private key
    and the chain code inside the BIP-32 node. *)
Definition secret_buffers (a : WalletAccountBtc) : list nat :=
  option_list (_masterKeyAndChainCodeBuffer a) ++
  option_list (_privateKeyBuffer a) ++
  option_list (_chainCodeBuffer a) ++
  [privateKey (_keyPair a)] ++
  match _bip32 a with
  | Some node => [__D node; chainCode node]
  | None => []
  end.

(** The sentence of the specification on zeroization, as it is written:
    once [dispose()] has returned, every secret buffer the account held
    contains only zero bytes. *)
Definition secrets_zeroed (st : State) : Prop :=
  forall st' l content,
    dispose st = (Ok tt, st') ->
    l ∈ secret_buffers (this st) ->
    heap st' !! l = Some content ->
    content = zeros (length content).




(** ** Further environments *)

(** A server that estimates 2.2 sat/vB, for an account with one unspent
    output.  The double nearest to 2.2 lies above it, and so does the
    product of 110 virtual bytes with it: the fee is 243 sats, not
    242. *)
Definition fractional_electrum (worth : Z) : ElectrumClient :=
  {| getUnspent := fun _ => Ok (Some [ mkUnspent "aa" 0 worth ]);
     getTransaction := getTransaction sample_electrum;
     getFeeEstimateInSatsPerVb := Ok (22 # 10);
     broadcastTransaction := fun _ => Ok "txid";
     getHistory := fun _ => Ok [] |}.

(** A history of one transaction that pays the account twice. *)
Definition batch_electrum : ElectrumClient :=
  {| getUnspent := fun _ => Ok (Some []);
     getTransaction := fun txid =>
       if String.eqb txid "coinbase" then
         Ok (mkTransaction [] [mkTxOut "0014miner" 5000000000])
       else if String.eqb txid "batch" then
         Ok (mkTransaction [mkTxIn "coinbase" 0]
               [mkTxOut "0014own" 3000; mkTxOut "0014own" 4000;
                mkTxOut "0014miner" 4999992000])
       else Throw (LibraryError "missing transaction");
     getFeeEstimateInSatsPerVb := Ok 1%Q;
     broadcastTransaction := fun _ => Ok "txid";
     getHistory := fun _ => Ok [mkHistoryItem "batch" 103] |}.

Definition batch_first : Transfer :=
  mkTransfer "batch" 103 3000 0 incoming (Some "own") (Some 1000) "own".

Definition batch_second : Transfer :=
  mkTransfer "batch" 103 4000 1 incoming (Some "own") (Some 1000) "own".

(** A library that decodes the scripts of three addresses and no
    other. *)
Definition known_address (script : string) : res string :=
  if String.eqb script "0014own" then Ok "own"
  else if String.eqb script "0014foreign" then Ok "foreign"
  else if String.eqb script "0014miner" then Ok "miner"
  else Throw (LibraryError "Output is invalid").

Definition three_address_lib : BitcoinJs :=
  {| validAddress := validAddress sample_lib;
     signInputHD := signInputHD sample_lib;
     checkFees := checkFees sample_lib;
     virtualSize := virtualSize sample_lib;
     getId := getId sample_lib;
     toHex := toHex sample_lib;
     toOutputScript := toOutputScript sample_lib;
     dummyVirtualSize := dummyVirtualSize sample_lib;
     fromOutputScript := known_address;
     p2wpkh_output_address := known_address |}.

(** A cache that holds one transaction of the server of
    [history_electrum]. *)
Definition warm_cache : gmap string Transaction :=
  <["coinbase" := mkTransaction [] [mkTxOut "0014miner" 5000000000]]> ∅.

(** The account of [sample_state] after [dispose()]. *)
Definition disposed_state : State :=
  Eval vm_compute in snd (dispose sample_state).

(** * The definitions at work *)

(** ** The builder *)

(** C1.  The builder of wallet-account-btc.js selects unspent outputs
    once, for the amount alone, and never enlarges the selection: with
    unspent outputs of 1000 and 100000 sats and an amount of 1000 sats,
    [sendTransaction] and [quoteSendTransaction] fail with
    "Insufficient balance", although the two outputs together pay the
    amount and the fee, and although [_estimateFee] of the read-only
    account, which does enlarge its selection, quotes a fee of 209. *)
Theorem send_does_not_expand_selection :
  sendTransaction sample_electrum sample_lib "own" "recipient" 1000
    = Throw (Error INSUFFICIENT) /\
  quoteSendTransaction sample_electrum sample_lib "own" "recipient" 1000
    = Throw (Error INSUFFICIENT) /\
  _getUtxos sample_electrum 1000 "own" = Ok (take 1 sample_collected) /\
  _getRawTransaction sample_lib "own" sample_collected 1000 "recipient" 1
    = Ok (mkRawTransaction "txid" "hex" 209) /\
  _estimateFee sample_electrum sample_lib "own" "recipient" 1000 = Ok 209.
Proof. repeat split; vm_compute; reflexivity. Qed.

(** With an amount the first unspent output does not reach, both
    outputs are selected and the transaction is built. *)
Example send_sample :
  sendTransaction sample_electrum sample_lib "own" "recipient" 10000
    = Ok (mkTransactionResult "txid" 209) /\
  _getUtxos sample_electrum 10000 "own" = Ok sample_collected.
Proof. split; vm_compute; reflexivity. Qed.

(** The estimator measures a provisional transaction at every step.
    When the first unspent output is worth less than the amount, a
    library that refuses to extract a transaction whose outputs exceed
    its inputs stops the estimate before a second output is added. *)
Example estimateFee_small_first_output :
  _estimateFee small_first_electrum sample_lib "own" "recipient" 1000
    = Throw (Error "Outputs are spending more than Inputs").
Proof. vm_compute. reflexivity. Qed.

Lemma built_transaction_outputs_witness :
  exists tx,
    "hex" = toHex sample_lib tx /\ "txid" = getId sample_lib tx /\
    inputs tx = sample_collected /\
    0 <= 101000 - 10000 - 209 /\
    outputs tx = [mkOutput "recipient" 10000; mkOutput "own" 90791] /\
    (DUST_LIMIT < 101000 - 10000 - 209 ->
      sum_values (inputs tx) - sum_outputs (outputs tx) = 209) /\
    (101000 - 10000 - 209 <= DUST_LIMIT ->
      sum_values (inputs tx) - sum_outputs (outputs tx) = 209 + (101000 - 10000 - 209)).
Proof.
  destruct (built_transaction_outputs sample_lib "own" sample_collected 10000
              "recipient" 1 (mkRawTransaction "txid" "hex" 209) eq_refl)
    as (tx & H1 & H2 & H3 & H4 & H5 & H6 & H7).
  exists tx. rewrite H3 in *. repeat split; assumption.
Defined.

Lemma fee_is_estimate_witness :
  fee_rule sample_electrum sample_lib "own" "recipient" 10000 209.
Proof.
  exact (proj2 (fee_is_estimate sample_electrum sample_lib "own" "recipient" 10000)
           209 eq_refl).
Defined.

(** ** Doubles

    The doubles nearest to 0.1 and to 2.2, and the fee of 110 virtual
    bytes at 2.2 sat/vB: the product taken in doubles lies above 242. *)
Example to_double_samples :
  to_double (1 # 10) = (3602879701896397 # 36028797018963968)%Q /\
  to_double (22 # 10) = (2476979795053773 # 1125899906842624)%Q /\
  Qceiling (to_double (inject_Z 110 * to_double (22 # 10))) = 243 /\
  Qceiling (inject_Z 110 * (22 # 10)) = 242.
Proof. split; [|split; [|split]]; vm_compute; reflexivity. Qed.

(** ** The history *)

Example getTransfers_sample :
  getTransfers history_electrum sample_lib "own" default_options
  = Ok sample_transfers.
Proof. vm_compute. reflexivity. Qed.

Example scripthash_getTransfers_sample :
  Scripthash.getTransfers history_electrum sample_lib "own" "scripthash" default_options
  = Ok sample_transfers.
Proof. vm_compute. reflexivity. Qed.

Example pagination_sample :
  getTransfers history_electrum sample_lib "own" (mkTransferOptions None (Some 1) (Some 1))
    = Ok [sample_outgoing] /\
  getTransfers history_electrum sample_lib "own" (mkTransferOptions None (Some 0) None)
    = Ok [] /\
  getTransfers history_electrum sample_lib "own" (mkTransferOptions None None (Some 4))
    = Ok [].
Proof. repeat split; vm_compute; reflexivity. Qed.

Lemma transfer_direction_witness :
  exists myScript tx out,
    toOutputScript sample_lib "own" = Ok myScript /\
    getTransaction history_electrum "send" = Ok tx /\
    outs tx !! 0%nat = Some out /\
    (outgoing = incoming \/ outgoing = outgoing) /\
    outgoing <> change /\
    (script out = myScript <-> outgoing = incoming) /\
    classify (String.eqb (script out) myScript)
      (pays_self myScript (map (fetch_prevOut history_electrum) (ins tx))) = Some outgoing.
Proof.
  apply (transfer_direction history_electrum sample_lib "own" default_options
           sample_transfers sample_outgoing).
  - vm_compute. reflexivity.
  - apply list_elem_of_further, list_elem_of_here.
Defined.

(** In the sample history the transaction "partial" has one parent the
    server knows and one it does not, and its record carries the fee
    computed from the known parent alone, a negative number. *)
Lemma fee_of_partial_parents_not_null :
  ~ fee_null_when_parent_missing history_electrum sample_lib "own".
Proof.
  intros Hclaim.
  specialize (Hclaim default_options sample_transfers
                sample_partial
                (mkTransaction [mkTxIn "fund" 1; mkTxIn "lost" 0]
                   [mkTxOut "0014own" 5000000000])).
  assert (t_fee sample_partial = None) as Hfee; [|discriminate Hfee].
  apply Hclaim.
  - vm_compute. reflexivity.
  - do 2 apply list_elem_of_further. apply list_elem_of_here.
  - vm_compute. reflexivity.
  - exists (mkTxIn "lost" 0). split.
    + apply list_elem_of_further, list_elem_of_here.
    + vm_compute. reflexivity.
Qed.

Lemma transfer_fee_witness :
  exists tx,
    getTransaction history_electrum "orphan" = Ok tx /\
    let totalInput := sum_resolved (map (fetch_prevOut history_electrum) (ins tx)) in
    t_fee sample_orphan =
      (if 0 <? totalInput then Some (totalInput - total_output tx) else None) /\
    ((forall input, input ∈ ins tx -> fetch_prevOut history_electrum input = None) ->
     t_fee sample_orphan = None /\ t_direction sample_orphan = incoming).
Proof.
  apply (transfer_fee history_electrum sample_lib "own" default_options
           sample_transfers sample_orphan).
  - vm_compute. reflexivity.
  - do 3 apply list_elem_of_further. apply list_elem_of_here.
Defined.

Lemma pagination_witness :
  exists transfers,
    getTransfers history_electrum sample_lib "own"
      (mkTransferOptions None (Some 1) (Some 1)) = Ok transfers /\
    (0 <= 1 ->
       transfers =
       take (Z.to_nat 1)
         (drop (Z.to_nat 1) sample_history
          ≫= records_of_item history_electrum sample_lib "own" "0014own" "all")) /\
    (0 <= 1 -> Z.of_nat (length transfers) <= 1) /\
    (1 = 0 -> transfers = []) /\
    (Z.of_nat (length sample_history) <= 1 -> transfers = []).
Proof.
  apply (pagination history_electrum sample_lib "own"
           (mkTransferOptions None (Some 1) (Some 1)) sample_history "0014own");
    reflexivity.
Defined.

(** ** The account *)

Lemma sample_constructor :
  constructor sample_crypto sample_seed "0'/0/0" = Ok sample_state.
Proof. vm_compute. reflexivity. Qed.

(** The second account has another address and another public key, and
    signs as the first one does. *)
Example sign_sample :
  constructor sample_crypto sample_seed "0'/0/10" = Ok sample_state' /\
  _address (this sample_state') <> _address (this sample_state) /\
  heap sample_state' !! publicKey (keyPair sample_state')
    <> heap sample_state !! publicKey (keyPair sample_state) /\
  sign sample_crypto sample_state' "Dummy message to sign."
    = sign sample_crypto sample_state "Dummy message to sign.".
Proof. repeat split; vm_compute; congruence. Qed.

Lemma sign_uses_master_key_witness :
  sign sample_crypto sample_state "Dummy message to sign." =
    Ok (base64_encode sample_crypto
          (ecdsa_sign sample_crypto (master_key sample_crypto sample_seed)
             (sha256 sample_crypto (utf8 "Dummy message to sign.")))) /\
  (forall path' st',
     constructor sample_crypto sample_seed path' = Ok st' ->
     sign sample_crypto st' "Dummy message to sign."
     = sign sample_crypto sample_state "Dummy message to sign.").
Proof.
  exact (sign_uses_master_key sample_crypto sample_seed "0'/0/0" sample_state
           "Dummy message to sign." sample_constructor).
Defined.

Lemma long_constructor :
  constructor sample_crypto long_seed "0'/0/0" = Ok long_state.
Proof. vm_compute. reflexivity. Qed.


(** The account of [long_seed]: [dispose()] overwrites the buffers 0,
    1, 2, 3 and 5 and leaves the chain code in buffer 4, which is not a
    run of zeros. *)
Lemma dispose_zeroes_secrets_witness :
  exists st',
    dispose long_state = (Ok tt, st') /\
    wiped long_state st' 0 /\ wiped long_state st' 1 /\ wiped long_state st' 2 /\
    wiped long_state st' 3 /\ wiped long_state st' 5 /\
    _bip32 (this long_state) = Some (mkBip32Node 3 4 5) /\
    heap st' !! 4%nat = Some (master_chain_code sample_crypto long_seed) /\
    master_chain_code sample_crypto long_seed <> zeros 32 /\
    master_key sample_crypto long_seed <> zeros 32 /\
    _bip32 (this st') = None /\
    _address (this st') = _address (this long_state) /\
    _path (this st') = "m/84'/0'/0'/0/0".
Proof.
  destruct (dispose_zeroes_secrets sample_crypto long_seed "0'/0/0" long_state
              long_constructor)
    as (st' & mkcc & priv & cc & node & Hd
        & (Hmkcc & Hpriv & Hcc & Hnode & _)
        & (W0 & W1 & W2 & _ & W3 & W5)
        & (_ & Hleft)
        & (_ & _ & _ & Hnull & _)
        & Haddr & Hpath & _).
  injection Hmkcc as <-. injection Hpriv as <-. injection Hcc as <-. injection Hnode as <-.
  exists st'. repeat split; try assumption; vm_compute; discriminate.
Defined.

(** On the account of [long_seed] the chain code inside the BIP-32
    node is a secret buffer of the account that [dispose()] leaves as it
    is. *)
Lemma chain_code_of_node_not_zeroed :
  ~ secrets_zeroed long_state.
Proof.
  intros Hclaim.
  specialize (Hclaim (snd (dispose long_state)) 4%nat
                (master_chain_code sample_crypto long_seed)).
  assert (master_chain_code sample_crypto long_seed
          = zeros (length (master_chain_code sample_crypto long_seed))) as Hzero;
    [|vm_compute in Hzero; discriminate Hzero].
  apply Hclaim.
  - reflexivity.
  - vm_compute. set_solver.
  - reflexivity.
Qed.




(** ** Further instances *)

Lemma _getUtxos_selection_witness :
  exists unspent,
    getUnspent sample_electrum "own" = Ok (Some unspent) /\
    sample_collected <> [] /\
    map utxo sample_collected = take (length sample_collected) unspent /\
    (forall k, (0 < k < length sample_collected)%nat ->
       sum_values (take k sample_collected) < 10000) /\
    (sum_values sample_collected < 10000 -> length sample_collected = length unspent) /\
    (forall c, c ∈ sample_collected ->
       exists tx,
         getTransaction sample_electrum (tx_hash (utxo c)) = Ok tx /\
         outs tx !! tx_pos (utxo c) = Some (vout c)).
Proof.
  exact (_getUtxos_selection sample_electrum 10000 "own" sample_collected eq_refl).
Defined.

Lemma nothing_unspent_rejected_witness :
  _getUtxos history_electrum 100 "own" = Throw (Error NO_UNSPENT) /\
  sendTransaction history_electrum sample_lib "own" "recipient" 100
    = Throw (Error NO_UNSPENT) /\
  quoteSendTransaction history_electrum sample_lib "own" "recipient" 100
    = Throw (Error NO_UNSPENT).
Proof.
  apply (nothing_unspent_rejected history_electrum sample_lib "own" "recipient" 100).
  right. reflexivity.
Defined.

Lemma dust_amount_rejected_witness :
  sendTransaction sample_electrum sample_lib "own" "recipient" 546
    = Throw (Error BELOW_DUST) /\
  quoteSendTransaction sample_electrum sample_lib "own" "recipient" 546
    = Throw (Error BELOW_DUST).
Proof.
  destruct (dust_amount_rejected sample_electrum sample_lib "own" "recipient" 546)
    as (_ & _ & _ & H); [unfold DUST_LIMIT; lia|].
  apply H; reflexivity.
Defined.

Lemma send_and_quote_agree_witness :
  quoteSendTransaction sample_electrum sample_lib "own" "recipient" 10000 = Ok 209 /\
  exists tx,
    _getTransaction sample_electrum sample_lib "own" "recipient" 10000 = Ok tx /\
    "txid" = txid tx /\
    is_ok (broadcastTransaction sample_electrum (hex tx)) = true.
Proof.
  exact (proj1 (send_and_quote_agree sample_electrum sample_lib "own" "recipient" 10000)
               (mkTransactionResult "txid" 209) eq_refl).
Defined.

Lemma built_transaction_bounds_witness :
  exists utxoSet,
    _getUtxos sample_electrum 10000 "own" = Ok utxoSet /\
    validAddress sample_lib "recipient" = true /\
    DUST_LIMIT < 10000 /\
    141 <= 209 /\
    10000 + 209 <= sum_values utxoSet.
Proof.
  exact (built_transaction_bounds sample_electrum sample_lib "own" "recipient" 10000
           (mkRawTransaction "txid" "hex" 209) eq_refl).
Defined.

Lemma every_input_is_signed_witness :
  exists psbt,
    createPsbt sample_lib "own" sample_collected 10000 "recipient" 101000 209 = Ok psbt /\
    inputs psbt = sample_collected /\
    length (witnesses psbt) = length sample_collected /\
    forall i, (i < length sample_collected)%nat ->
      exists w,
        witnesses psbt !! i = Some w /\
        signInputHD sample_lib sample_collected (outputs psbt) i = Ok w.
Proof.
  eexists. split; [reflexivity|].
  apply (every_input_is_signed sample_lib "own" sample_collected 10000 "recipient"
           101000 209).
  reflexivity.
Defined.

Lemma _getTransaction_insufficient_witness :
  _getTransaction sample_electrum sample_lib "own" "recipient" 1000
    = Throw (Error INSUFFICIENT).
Proof.
  apply (_getTransaction_insufficient sample_electrum sample_lib "own" "recipient" 1000
           (take 1 sample_collected) 1%Q
           (mkPsbt (take 1 sample_collected) [mkOutput "recipient" 1000] ["witness"])).
  - reflexivity.
  - reflexivity.
  - unfold DUST_LIMIT. lia.
  - reflexivity.
  - reflexivity.
  - vm_compute. reflexivity.
Defined.

Lemma _estimateFee_first_cover_witness :
  exists est us fromScript toScript n,
    getFeeEstimateInSatsPerVb (fractional_electrum 1243) = Ok est /\
    getUnspent (fractional_electrum 1243) "own" = Ok (Some us) /\
    toOutputScript sample_lib "own" = Ok fromScript /\
    toOutputScript sample_lib "recipient" = Ok toScript /\
    (0 < n <= length us)%nat /\
    measure_fee sample_lib (Math_max (to_double est) 1) fromScript toScript 1000
      (take n us) (sum_unspent (take n us)) = Ok 243 /\
    141 <= 243 /\
    1000 + 243 <= sum_unspent (take n us) /\
    forall k, (0 < k < n)%nat ->
      exists fk,
        measure_fee sample_lib (Math_max (to_double est) 1) fromScript toScript 1000
          (take k us) (sum_unspent (take k us)) = Ok fk /\
        sum_unspent (take k us) < 1000 + fk.
Proof.
  apply (_estimateFee_first_cover (fractional_electrum 1243) sample_lib
           "own" "recipient" 1000 243).
  vm_compute. reflexivity.
Defined.

Lemma _estimateFee_insufficient_witness :
  _estimateFee (fractional_electrum 1242) sample_lib "own" "recipient" 1000
    = Throw (Error INSUFFICIENT).
Proof.
  apply (_estimateFee_insufficient (fractional_electrum 1242) sample_lib
           "own" "recipient" 1000 (22 # 10)
           [mkUnspent "aa" 0 1242] "0014own" "0014recipient");
    try reflexivity.
  - discriminate.
  - intros n Hn. assert (n = 1%nat) as -> by (simpl in Hn; lia).
    exists 243. split; vm_compute; reflexivity.
Defined.

Lemma cache_is_transparent_witness :
  (forall id tx,
     fst (getTx history_electrum warm_cache id) = Ok tx ->
     snd (getTx history_electrum warm_cache id) !! id = Some tx /\
     getTx history_electrum (snd (getTx history_electrum warm_cache id)) id
       = (Ok tx, snd (getTx history_electrum warm_cache id))) /\
  (forall id e,
     fst (getTx history_electrum warm_cache id) = Throw e ->
     snd (getTx history_electrum warm_cache id) = warm_cache) /\
  history_loop history_electrum sample_lib "own" "0014own" "all" 10 sample_history
    warm_cache [] =
  history_loop history_electrum sample_lib "own" "0014own" "all" 10 sample_history ∅ [].
Proof.
  apply (cache_is_transparent history_electrum sample_lib "own" "0014own" "all" 10
           sample_history warm_cache []).
  intros id tx. unfold warm_cache.
  destruct (decide (id = "coinbase")) as [->|Hne].
  - rewrite lookup_insert_eq. intros [= <-]. reflexivity.
  - rewrite lookup_insert_ne, lookup_empty by done. discriminate.
Defined.

Lemma limit_is_prefix_witness :
  [sample_incoming] = take (Z.to_nat 1) [sample_incoming; sample_outgoing; sample_partial].
Proof.
  apply (limit_is_prefix history_electrum sample_lib "own" None None 1 3).
  - lia.
  - vm_compute. reflexivity.
  - vm_compute. reflexivity.
Defined.

Lemma direction_option_witness :
  getTransfers history_electrum sample_lib "own"
    (mkTransferOptions (Some "outgoing") None None) = Ok [sample_outgoing] /\
  getTransfers history_electrum sample_lib "own"
    (mkTransferOptions (Some "sideways") None None) = Ok [].
Proof.
  split.
  - destruct (direction_option history_electrum sample_lib "own" "outgoing" None None
                sample_history "0014own" eq_refl eq_refl) as [H _].
    rewrite H. vm_compute. reflexivity.
  - destruct (direction_option history_electrum sample_lib "own" "sideways" None None
                sample_history "0014own" eq_refl eq_refl) as [_ H].
    apply H; discriminate.
Defined.

Lemma pagination_out_of_range_witness :
  getTransfers history_electrum sample_lib "own" (mkTransferOptions None None (Some (-1)))
  = Ok (take (Z.to_nat 10)
          (drop (length sample_history - Z.to_nat (- -1)) sample_history
           ≫= records_of_item history_electrum sample_lib "own" "0014own" "all")).
Proof.
  destruct (pagination_out_of_range history_electrum sample_lib "own"
              (mkTransferOptions None None (Some (-1))) sample_history "0014own"
              eq_refl eq_refl) as (_ & H & _).
  apply H; simpl; lia.
Defined.

Lemma transfer_record_sound_witness :
  exists history item tx out,
    getHistory history_electrum "own" = Ok history /\
    item ∈ history /\
    t_txid sample_outgoing = item_tx_hash item /\
    t_height sample_outgoing = height item /\
    getTransaction history_electrum (t_txid sample_outgoing) = Ok tx /\
    outs tx !! t_vout sample_outgoing = Some out /\
    t_value sample_outgoing = out_value out /\
    t_recipient sample_outgoing =
      match fromOutputScript sample_lib (script out) with
      | Ok a => Some a
      | Throw _ => None
      end /\
    t_address sample_outgoing = "own".
Proof.
  apply (transfer_record_sound history_electrum sample_lib "own" default_options
           sample_transfers sample_outgoing).
  - vm_compute. reflexivity.
  - apply list_elem_of_further, list_elem_of_here.
Defined.

Lemma records_of_a_transaction_agree_witness :
  t_fee batch_first = t_fee batch_second /\
  t_direction batch_first = t_direction batch_second.
Proof.
  apply (records_of_a_transaction_agree batch_electrum sample_lib "own" default_options
           [batch_first; batch_second]).
  - vm_compute. reflexivity.
  - apply list_elem_of_here.
  - apply list_elem_of_further, list_elem_of_here.
  - reflexivity.
Defined.

Lemma no_output_reported_twice_witness :
  NoDup ((fun r => (t_txid r, t_vout r)) <$> sample_transfers).
Proof.
  apply (no_output_reported_twice history_electrum sample_lib "own" default_options
           sample_history sample_transfers).
  - reflexivity.
  - compute_done.
  - vm_compute. reflexivity.
Defined.

Lemma scripthash_success_below_limit_witness :
  exists tx,
    getTransaction history_electrum "send" = Ok tx /\
    forall out, out ∈ outs tx ->
      is_ok (p2wpkh_output_address sample_lib (script out)) = true.
Proof.
  apply (Scripthash.scripthash_success_below_limit history_electrum sample_lib "own"
           "scripthash" default_options sample_history sample_transfers eq_refl eq_refl
           eq_refl (mkHistoryItem "send" 102)).
  apply list_elem_of_further, list_elem_of_here.
Defined.

Lemma scripthash_estimate_floor_witness :
  Scripthash._estimateFee sample_electrum sample_lib "scripthash"
    (fun _ => Ok (-1)%Q) "own" "recipient" 1000 =
  Scripthash._estimateFee sample_electrum sample_lib "scripthash"
    (fun _ => Ok (1 # 100000)%Q) "own" "recipient" 1000.
Proof.
  apply (Scripthash.scripthash_estimate_floor sample_electrum sample_lib "scripthash"
           (fun _ => Ok (-1)%Q) (fun _ => Ok (1 # 100000)%Q) (-1)%Q (1 # 100000)%Q);
    try reflexivity.
  - unfold Qle. simpl. lia.
  - unfold Qle. simpl. lia.
Defined.

Lemma scripthash_transfer_direction_witness :
  exists tx out addr,
    getTransaction history_electrum (t_txid sample_outgoing) = Ok tx /\
    outs tx !! t_vout sample_outgoing = Some out /\
    p2wpkh_output_address sample_lib (script out) = Ok addr /\
    (t_direction sample_outgoing = incoming \/ t_direction sample_outgoing = outgoing) /\
    (Scripthash.isAddressMatch addr "own" = true <-> t_direction sample_outgoing = incoming).
Proof.
  apply (Scripthash.scripthash_transfer_direction history_electrum sample_lib "own"
           "scripthash" default_options sample_transfers sample_outgoing).
  - vm_compute. reflexivity.
  - apply list_elem_of_further, list_elem_of_here.
Defined.

Lemma scripthash_pagination_witness :
  (forall transfers,
     Scripthash.getTransfers history_electrum sample_lib "own" "scripthash"
       (mkTransferOptions None (Some 1) (Some 1)) = Ok transfers ->
     0 <= 1 -> Z.of_nat (length transfers) <= 1) /\
  (1 = 0 ->
   Scripthash.getTransfers history_electrum sample_lib "own" "scripthash"
     (mkTransferOptions None (Some 1) (Some 1)) = Ok []) /\
  (Z.of_nat (length sample_history) <= 1 ->
   Scripthash.getTransfers history_electrum sample_lib "own" "scripthash"
     (mkTransferOptions None (Some 1) (Some 1)) = Ok []).
Proof.
  exact (Scripthash.scripthash_pagination history_electrum sample_lib "own" "scripthash"
           (mkTransferOptions None (Some 1) (Some 1)) sample_history eq_refl).
Defined.

Lemma fee_agrees_between_versions_witness :
  t_fee sample_outgoing = t_fee sample_outgoing.
Proof.
  apply (fee_agrees_between_versions history_electrum sample_lib "own" "scripthash"
           default_options default_options sample_transfers sample_transfers).
  - vm_compute. reflexivity.
  - apply list_elem_of_further, list_elem_of_here.
  - vm_compute. reflexivity.
  - apply list_elem_of_further, list_elem_of_here.
  - reflexivity.
Defined.

Lemma versions_agree_witness :
  getTransfers history_electrum three_address_lib "own" default_options
  = Ok sample_transfers.
Proof.
  apply (versions_agree history_electrum three_address_lib "own" "scripthash" "0014own").
  - reflexivity.
  - reflexivity.
  - intros script. cbn [p2wpkh_output_address three_address_lib]. unfold known_address.
    destruct (String.eqb_spec script "0014own"); [done|].
    destruct (String.eqb script "0014foreign"); [discriminate|].
    destruct (String.eqb script "0014miner"); discriminate.
  - intros script a. cbn [p2wpkh_output_address three_address_lib]. unfold known_address.
    destruct (String.eqb script "0014own"); [by intros [= <-]|].
    destruct (String.eqb script "0014foreign"); [by intros [= <-]|].
    destruct (String.eqb script "0014miner"); [by intros [= <-]|discriminate].
  - intros script a H. exact H.
  - reflexivity.
  - vm_compute. reflexivity.
Defined.

Lemma verify_accepts_sign_witness :
  verify sample_crypto sample_state "Dummy message to sign."
    (String.string_of_list_byte
       (master_key sample_crypto sample_seed ++
        sha256 sample_crypto (utf8 "Dummy message to sign."))) = Ok true /\
  verify sample_crypto sample_state' "Dummy message to sign."
    (String.string_of_list_byte
       (master_key sample_crypto sample_seed ++
        sha256 sample_crypto (utf8 "Dummy message to sign."))) = Ok true.
Proof.
  apply (verify_accepts_sign sample_crypto sample_seed "0'/0/0" "0'/0/10").
  - intros k h. simpl. rewrite drop_0.
    destruct (list_eq_dec _ _); [reflexivity|congruence].
  - intros b. apply String.list_byte_of_string_of_list_byte.
  - exact sample_constructor.
  - vm_compute. reflexivity.
  - vm_compute. reflexivity.
Defined.

Lemma address_matches_public_key_witness :
  path sample_state = "m/84'/0'/0'/0/0" /\
  (exists pk,
     heap sample_state !! publicKey (keyPair sample_state) = Some pk /\
     getAddress sample_state = Ok (p2wpkh_address sample_crypto pk)) /\
  (forall st', dispose sample_state = (Ok tt, st') ->
     getAddress st' = getAddress sample_state /\ path st' = path sample_state).
Proof.
  exact (address_matches_public_key sample_crypto sample_seed "0'/0/0" sample_state
           sample_constructor).
Defined.

Lemma dispose_leaves_derived_key_witness :
  exists indices childKey childChainCode node,
    parsePath sample_crypto (full_path "0'/0/0") = Some indices /\
    derive_all sample_crypto
      (master_key sample_crypto sample_seed, master_chain_code sample_crypto sample_seed)
      indices = Some (childKey, childChainCode) /\
    _bip32 (this sample_state) = Some node /\
    heap sample_state !! chainCode node = Some (master_chain_code sample_crypto sample_seed) /\
    heap disposed_state !! chainCode node
      = Some (master_chain_code sample_crypto sample_seed) /\
    (indices <> [] ->
     exists l,
       heap sample_state !! l = Some childKey /\
       heap disposed_state !! l = Some childKey).
Proof.
  apply (dispose_leaves_derived_key sample_crypto sample_seed "0'/0/0" sample_state
           disposed_state).
  - exact sample_constructor.
  - reflexivity.
Defined.

Lemma dispose_twice_throws_witness :
  dispose disposed_state
    = (Throw (LibraryError "buf must be a typed array"), disposed_state).
Proof.
  apply (dispose_twice_throws sample_crypto sample_seed "0'/0/0" sample_state
           disposed_state).
  - exact sample_constructor.
  - reflexivity.
Defined.

Lemma index_is_last_component_witness :
  get_index sample_state' = Some (Num 10).
Proof.
  destruct (index_is_last_component sample_crypto sample_seed "0'/0/10" sample_state')
    as (_ & H & _).
  - vm_compute. reflexivity.
  - apply (H "0'/0" "10"); [reflexivity|reflexivity|vm_compute; discriminate].
Defined.

(** ** The witness serialisation *)

(** The witness [_estimateFee] gives every input: a stack of two items,
    71 bytes behind the length 71 and 33 bytes behind the length 33. *)
Example finalWitness_bytes :
  finalWitness = Ok ([x02; x47] ++ dummySig ++ [x21] ++ dummyPub).
Proof. vm_compute. reflexivity. Qed.

Lemma encodeVarInt_prefix_free_witness :
  71 = 71 /\ dummySig = dummySig /\ 71 <= 4294967295 /\
  Z.of_nat (length [x47]) = varint_size 71.
Proof.
  apply (encodeVarInt_prefix_free 71 71 [x47] [x47] dummySig dummySig);
    try reflexivity; lia.
Defined.

Lemma serializeWitness_injective_witness :
  [dummySig; dummyPub] = [replicate 71 x01; replicate 33 x02].
Proof.
  apply (serializeWitness_injective [dummySig; dummyPub] [replicate 71 x01; replicate 33 x02]
           ([x02; x47] ++ dummySig ++ [x21] ++ dummyPub));
    vm_compute; reflexivity.
Defined.

Lemma serializeWitness_size_witness :
  exists w,
    serializeWitness [dummySig; dummyPub] = Ok w /\
    Z.of_nat (length w) = 107.
Proof.
  apply (serializeWitness_size [dummySig; dummyPub]).
  - simpl. lia.
  - repeat constructor; vm_compute; discriminate.
Defined.
